(** * kalsh_site2: URL-to-path mapping and reference rewriting

    A shallow embedding of [src/kalsh_site2.py], the one-page site mirror.
    The embedded functions are [sanitize_filename], [local_path_for_url],
    the response listener [on_response], the DOM-scan fallback loop of
    [capture_page], the textual rewrite of the captured markup at the end
    of [capture_page], and [mapUrl], the function of the injected script
    that maps the URLs of the requests made at run time.

    Conventions.
    - A Python [str] is a list of characters; a character is a code point
      below 256, so the development covers Latin-1 text.
    - The file system is a finite map from absolute paths to nodes; a
      path is the list of its parts.  [OUT_DIR], the directory of the
      script, is a parameter.  Only the presence and the kind of a node
      is modelled.  On a real system the creation of a directory or of a
      file can also fail for a reason that the map does not show
      (permissions, a name that is too long, a full disk), and in the
      model it never does.  The general theorems are therefore about
      calls that return, or about calls that find the directory in
      place.  The examples are evaluated with short names on an empty
      disk.
    - Functions that touch the disk are state passing: they take the file
      system and return an outcome together with the new file system.
    - An outcome is [Ok v] or [Raise e]; [None] is an ordinary value.
    - A response handler runs in a task of its own and gives way to the
      other tasks at its [await]: [on_response_start] is the handler up
      to the [await], [on_response_finish] is the rest of it, and
      [run_handlers] runs the handlers of a sequence of arrivals and
      resumptions.  [on_response] is a handler that is resumed before
      any other one starts, and [record_assets] is a run in which every
      handler is.
    - [urlparse], [pathlib], [os.path] and [re] are the Python standard
      library; they are modelled after CPython 3.11/3.12 on a POSIX
      system as far as the program uses them.  The validation of a
      bracketed host, which differs between releases, and [urljoin] are
      parameters.
    - [mapUrl] is JavaScript.  What the browser reports for the anchor
      with which it resolves a URL is an input of the function, and its
      patterns are read with the matcher of the Python patterns. *)

From Stdlib Require Import String Ascii List Bool Arith Lia.
From stdpp Require Import base option list strings gmap.
Import ListNotations.
Open Scope list_scope.

(** ** Python strings *)

Definition str := list ascii.
Coercion list_ascii_of_string : string >-> list.

Definition code (c : ascii) : nat := nat_of_ascii c.

Definition in_range (lo hi : nat) (c : ascii) : bool :=
  (lo <=? code c) && (code c <=? hi).

Definition is_upper (c : ascii) : bool := in_range 65 90 c.
Definition is_lower (c : ascii) : bool := in_range 97 122 c.
Definition is_digit (c : ascii) : bool := in_range 48 57 c.
Definition is_alpha (c : ascii) : bool := is_upper c || is_lower c.
Definition is_alnum (c : ascii) : bool := is_alpha c || is_digit c.

(** [c in chars] for a character and a string of candidates. *)
Definition char_in (chars : str) (c : ascii) : bool :=
  existsb (Ascii.eqb c) chars.

(** [str.lower] on Latin-1: A-Z and the accented capitals U+00C0..U+00DE
    except the multiplication sign U+00D7 move up by 32. *)
Definition py_lower_char (c : ascii) : ascii :=
  if is_upper c || (in_range 192 222 c && negb (code c =? 215))
  then ascii_of_nat (code c + 32) else c.

Definition lower (s : str) : str := map py_lower_char s.

(** [s.startswith(p)] and [s.endswith(p)]. *)
Definition startswith (p s : str) : bool := bool_decide (p `prefix_of` s).
Definition endswith (p s : str) : bool := bool_decide (p `suffix_of` s).

(** [sub in s]: [sub] occurs in [s] as a substring. *)
Fixpoint contains (sub s : str) : bool :=
  startswith sub s ||
  match s with
  | [] => false
  | _ :: s' => contains sub s'
  end.

(** [s.find(c)] for a single character: index of the first occurrence. *)
Fixpoint find_char (c : ascii) (s : str) : option nat :=
  match s with
  | [] => None
  | x :: s' => if Ascii.eqb x c then Some 0 else S <$> find_char c s'
  end.

(** [s.rfind(c)]: index of the last occurrence. *)
Fixpoint rfind_char (c : ascii) (s : str) : option nat :=
  match s with
  | [] => None
  | x :: s' =>
      match rfind_char c s' with
      | Some i => Some (S i)
      | None => if Ascii.eqb x c then Some 0 else None
      end
  end.

(** [s.split(c, 1)] when [c] occurs in [s]; [(s, None)] stands for the
    one-element result when it does not. *)
Definition split_once (c : ascii) (s : str) : str * option str :=
  match find_char c s with
  | Some i => (take i s, Some (drop (S i) s))
  | None => (s, None)
  end.

(** [s.split(c)] for a single-character separator: never empty. *)
Fixpoint split (c : ascii) (s : str) : list str :=
  match s with
  | [] => [[]]
  | x :: s' =>
      if Ascii.eqb x c then [] :: split c s'
      else match split c s' with
           | seg :: segs => (x :: seg) :: segs
           | [] => [[x]]
           end
  end.

(** [sep.join(parts)]. *)
Fixpoint join (sep : str) (parts : list str) : str :=
  match parts with
  | [] => []
  | [p] => p
  | p :: ps => p ++ sep ++ join sep ps
  end.

(** [s.lstrip(chars)]. *)
Fixpoint lstrip (chars : ascii -> bool) (s : str) : str :=
  match s with
  | c :: s' => if chars c then lstrip chars s' else s
  | [] => []
  end.

(** [s.replace(old, new)] for a non-empty [old]: occurrences are found left
    to right and do not overlap; [skip] counts the characters of the
    occurrence just replaced that are still to be passed over. *)
Fixpoint replace_scan (old new : str) (skip : nat) (s : str) : str :=
  match s with
  | [] => []
  | c :: s' =>
      match skip with
      | S k => replace_scan old new k s'
      | O =>
          if startswith old s
          then new ++ replace_scan old new (length old - 1) s'
          else c :: replace_scan old new 0 s'
      end
  end.

(** [s.replace(old, new)]; an empty [old] matches before every character
    and at the end. *)
Definition replace (old new s : str) : str :=
  match old with
  | [] => new ++ flat_map (fun c => c :: new) s
  | _ => replace_scan old new 0 s
  end.

(** ** Outcomes *)

Inductive exn : Type :=
| ValueError
| FileExistsError
| FileNotFoundError
| NotADirectoryError
| IsADirectoryError
| PlaywrightError.

Inductive result (A : Type) : Type :=
| Ok (a : A)
| Raise (e : exn).
Arguments Ok {A} a.
Arguments Raise {A} e.

(** ** [urllib.parse.urlparse] *)

Record ParseResult : Type := mkParseResult {
  scheme : str;
  netloc : str;
  path : str;
  params : str;
  query : str;
  fragment : str
}.

Definition uses_params : list str :=
  [ [] ; "ftp" : str; "hdl" : str; "prospero" : str; "http" : str;
    "imap" : str; "https" : str; "shttp" : str; "rtsp" : str;
    "rtspu" : str; "sip" : str; "sips" : str; "mms" : str; "sftp" : str;
    "tel" : str ].

Definition scheme_chars : str :=
  "abcdefghijklmnopqrstuvwxyzABCDEFGHIJKLMNOPQRSTUVWXYZ0123456789+-.".

(** [_WHATWG_C0_CONTROL_OR_SPACE]: U+0000..U+0020. *)
Definition c0_control_or_space (c : ascii) : bool := code c <=? 32.

(** [_UNSAFE_URL_BYTES_TO_REMOVE]: tab, carriage return, line feed. *)
Definition unsafe_url_bytes : list ascii := ["009"; "013"; "010"]%char.

(** [_splitnetloc(url, 2)]: the netloc runs from index 2 to the first of
    [/], [?], [#], or to the end. *)
Definition _splitnetloc (url : str) : str * str :=
  let rest := drop 2 url in
  let delim :=
    fold_left
      (fun d c => match find_char c rest with
                  | Some w => Nat.min d w
                  | None => d
                  end)
      ["/"; "?"; "#"]%char (length rest) in
  (take delim rest, drop delim rest).

(** [_splitparams(url)]. *)
Definition _splitparams (url : str) : str * str :=
  if char_in url "/" then
    let start := default 0 (rfind_char "/" url) in
    match find_char ";" (drop start url) with
    | Some j => (take (start + j) url, drop (S (start + j)) url)
    | None => (url, [])
    end
  else
    match find_char ";" url with
    | Some i => (take i url, drop (S i) url)
    | None => (take (length url - 1) url, url)
    end.

Section UrlParse.

(** The check that [urlsplit] runs on a netloc in which both [[] and []]
    occur ([_check_bracketed_netloc], IP-literal validation of the
    [ipaddress] module).  Its verdict is all the program depends on. *)
Variable check_bracketed_netloc : str -> bool.

(** [urlsplit(url)] with the default arguments.  [_checknetloc] only
    rejects a netloc whose NFKC form gains one of [/?#@:]; no Latin-1
    character normalises to one of those, so it never raises here. *)
Definition urlsplit (url : str) : result (str * str * str * str * str) :=
  let url := lstrip c0_control_or_space url in
  let url := fold_left (fun u b => replace [b] [] u) unsafe_url_bytes url in
  let '(sch, url) :=
    match find_char ":" url, url with
    | Some (S i), c0 :: _ =>
        if is_alpha c0 && forallb (char_in scheme_chars) (take (S i) url)
        then (lower (take (S i) url), drop (S (S i)) url)
        else ([], url)
    | _, _ => ([], url)
    end in
  let split_netloc :=
    if bool_decide (take 2 url = ("//" : str)) then
      let '(nl, rest) := _splitnetloc url in
      let has_open := char_in nl "[" in
      let has_close := char_in nl "]" in
      if (has_open && negb has_close) || (has_close && negb has_open)
      then Raise ValueError
      else if has_open && has_close && negb (check_bracketed_netloc nl)
      then Raise ValueError
      else Ok (nl, rest)
    else Ok ([], url) in
  match split_netloc with
  | Raise e => Raise e
  | Ok (nl, url) =>
      let '(url, frag) :=
        match split_once "#" url with
        | (u, Some f) => (u, f)
        | (u, None) => (u, [])
        end in
      let '(url, qry) :=
        match split_once "?" url with
        | (u, Some q) => (u, q)
        | (u, None) => (u, [])
        end in
      Ok (sch, nl, url, qry, frag)
  end.

(** [urlparse(url)]. *)
Definition urlparse (url : str) : result ParseResult :=
  match urlsplit url with
  | Raise e => Raise e
  | Ok (sch, nl, url, qry, frag) =>
      let '(url, prm) :=
        if bool_decide (sch ∈ uses_params) && char_in url ";"
        then _splitparams url
        else (url, []) in
      Ok (mkParseResult sch nl url prm qry frag)
  end.

End UrlParse.

(** ** Regular expressions ([re])

    The patterns of the program are sequences of single-character items,
    each a literal or a class, bare or under a greedy repetition with a
    lower bound ([*] is 0, [+] is 1, [{2,}] is 2).  Matching is Python's:
    backtracking, leftmost, the longest repetition tried first. *)

Inductive atom : Type :=
| One (cls : ascii -> bool)
| Many (cls : ascii -> bool) (lo : nat).

Definition regex := list atom.

(** A greedy repetition of [cls] followed by the continuation [k]:
    one more character is tried first; the continuation is tried where
    the repetition stops, provided the lower bound [lo] is met. *)
Fixpoint greedy (cls : ascii -> bool) (k : str -> option str)
    (lo : nat) (s : str) : option str :=
  let stop := match lo with O => k s | S _ => None end in
  match s with
  | c :: s' =>
      if cls c then
        match greedy cls k (pred lo) s' with
        | Some rest => Some rest
        | None => stop
        end
      else stop
  | [] => stop
  end.

(** [re.match]: the text left after the match of [r] at the start of [s]. *)
Fixpoint match_here (r : regex) (s : str) : option str :=
  match r with
  | [] => Some s
  | One cls :: r' =>
      match s with
      | c :: s' => if cls c then match_here r' s' else None
      | [] => None
      end
  | Many cls lo :: r' => greedy cls (match_here r') lo s
  end.

(** [re.sub(r, repl, s)] for a replacement without group references.
    [skip] counts the characters of the last match still to be passed. *)
Fixpoint sub_scan (r : regex) (repl : str) (skip : nat) (s : str) : str :=
  match s with
  | [] =>
      match skip, match_here r [] with
      | O, Some _ => repl
      | _, _ => []
      end
  | c :: s' =>
      match skip with
      | S k => sub_scan r repl k s'
      | O =>
          match match_here r s with
          | Some rest =>
              match length s - length rest with
              | O => repl ++ c :: sub_scan r repl 0 s'
              | S k => repl ++ sub_scan r repl k s'
              end
          | None => c :: sub_scan r repl 0 s'
          end
      end
  end.

Definition re_sub (r : regex) (repl s : str) : str := sub_scan r repl 0 s.

(** A literal under [re.IGNORECASE].  The literals of the program are
    ASCII, and on Latin-1 text only the two ASCII cases of a letter
    match it. *)
Definition ascii_lower (c : ascii) : ascii :=
  if is_upper c then ascii_of_nat (code c + 32) else c.

Definition ci (c : ascii) : atom :=
  One (fun x => Ascii.eqb (ascii_lower x) (ascii_lower c)).

Definition lit_ci (s : str) : regex := map ci s.

(** [\s] on Latin-1 text: tab to carriage return, the information
    separators U+001C..U+001F, space, U+0085 and U+00A0. *)
Definition is_space (c : ascii) : bool :=
  in_range 9 13 c || in_range 28 32 c || (code c =? 133) || (code c =? 160).

Definition not_char (x : ascii) (c : ascii) : bool := negb (Ascii.eqb c x).

(** ** [pathlib] and the file system *)

(** A path is the list of its parts.  A file-system key is an absolute
    path without [..] parts. *)
Abbreviation Path := (list str).

Inductive node : Type :=
| Dir
| File (data : list Byte.byte).

Abbreviation FS := (gmap (list str) node).

(** [PurePath] built from segments without a separator: empty and
    [.] segments are dropped, [..] segments are kept. *)
Definition proper_part (seg : str) : bool :=
  negb (bool_decide (seg = [])) && negb (bool_decide (seg = ("." : str))).

Definition Path_of (segments : list str) : Path := filter proper_part segments.

(** [PurePath.parent]: lexical. *)
Definition parent (p : Path) : Path := removelast p.

(** [PurePosixPath.as_posix()] of a relative path. *)
Definition as_posix (p : Path) : str :=
  match p with
  | [] => "."
  | _ => join "/" p
  end.

(** Path resolution as the kernel does it, from the directory [cur]:
    every part but the last must lead to a directory, and [..] moves to
    the parent.  The result is the key of the target and its node, if
    the target exists. *)
Fixpoint resolve (fs : FS) (cur rest : Path) : result (Path * option node) :=
  match rest with
  | [] => Ok (cur, Some Dir)
  | x :: rest' =>
      if bool_decide (x = (".." : str)) then resolve fs (parent cur) rest'
      else
        let q := cur ++ [x] in
        match fs !! q, rest' with
        | Some Dir, _ => resolve fs q rest'
        | Some (File d), [] => Ok (q, Some (File d))
        | Some (File _), _ :: _ => Raise NotADirectoryError
        | None, [] => Ok (q, None)
        | None, _ :: _ => Raise FileNotFoundError
        end
  end.

(** [Path.is_dir()] and [Path.exists()]. *)
Definition is_dir (fs : FS) (p : Path) : bool :=
  match resolve fs [] p with
  | Ok (_, Some Dir) => true
  | _ => false
  end.

Definition path_exists (fs : FS) (p : Path) : bool :=
  match resolve fs [] p with
  | Ok (_, Some _) => true
  | _ => false
  end.

(** [os.mkdir(p)], as far as the nodes on the path decide its outcome:
    the system call can refuse to make the directory for other reasons,
    and the model has no such refusal. *)
Definition os_mkdir (p : Path) (fs : FS) : result unit * FS :=
  match resolve fs [] p with
  | Ok (q, None) => (Ok tt, <[q := Dir]> fs)
  | Ok (_, Some _) => (Raise FileExistsError, fs)
  | Raise e => (Raise e, fs)
  end.

(** [p.mkdir(parents=False, exist_ok=True)]. *)
Definition mkdir_single (p : Path) (fs : FS) : result unit * FS :=
  match os_mkdir p fs with
  | (Ok _, fs1) => (Ok tt, fs1)
  | (Raise FileNotFoundError, fs1) => (Raise FileNotFoundError, fs1)
  | (Raise e, fs1) => if is_dir fs1 p then (Ok tt, fs1) else (Raise e, fs1)
  end.

(** [p.mkdir(parents=True, exist_ok=True)], by recursion on the parts of
    [p] from the last one: [rp] is [p] reversed, so that the parent of
    [p] is the tail of [rp]. *)
Fixpoint mkdir_parents_rev (rp : Path) (fs : FS) : result unit * FS :=
  let p := rev rp in
  match os_mkdir p fs with
  | (Ok _, fs1) => (Ok tt, fs1)
  | (Raise FileNotFoundError, fs1) =>
      match rp with
      | [] => (Raise FileNotFoundError, fs1)
      | _ :: rparent =>
          match mkdir_parents_rev rparent fs1 with
          | (Ok _, fs2) => mkdir_single p fs2
          | (Raise e, fs2) => (Raise e, fs2)
          end
      end
  | (Raise e, fs1) => if is_dir fs1 p then (Ok tt, fs1) else (Raise e, fs1)
  end.

Definition mkdir_parents (p : Path) (fs : FS) : result unit * FS :=
  mkdir_parents_rev (rev p) fs.

(** [p.write_bytes(data)], with the same restriction: the file is
    opened for writing, which creates or empties it, and the data go in;
    a failure of the system to create the file or to take the data is
    not in the model. *)
Definition write_bytes (p : Path) (data : list Byte.byte) (fs : FS) : result unit * FS :=
  match resolve fs [] p with
  | Ok (_, Some Dir) => (Raise IsADirectoryError, fs)
  | Ok (q, _) => (Ok tt, <[q := File data]> fs)
  | Raise e => (Raise e, fs)
  end.

(** ** The module constants *)

Definition START_URL : str := "https://kalashnikovgroup.ru/".

Definition ALLOWED_HOSTS : list str :=
  [ "kalashnikovgroup.ru" : str; "www.kalashnikovgroup.ru" : str;
    "en.kalashnikovgroup.ru" : str ].

(** The class [[^A-Za-z0-9.-]] of the host substitution. *)
Definition host_unsafe (c : ascii) : bool :=
  negb (is_alnum c || char_in ".-" c).

(** The class [[^A-Za-z0-9._/,\-]] of the path substitution. *)
Definition path_unsafe (c : ascii) : bool :=
  negb (is_alnum c || char_in "._/,-" c).

Section Mirror.

(** [OUT_DIR], the directory of the script, as an absolute path. *)
Variable OUT_DIR : Path.

Variable check_bracketed_netloc : str -> bool.

Definition ASSETS_DIR : Path := OUT_DIR ++ [("assets" : str)].

(** [local_path_for_url(url)]: [(abs_path, rel_posix)], [None], or an
    exception of [urlparse] or [mkdir]. *)
Definition local_path_for_url (url : str) (fs : FS)
    : result (option (Path * str)) * FS :=
  match urlparse check_bracketed_netloc url with
  | Raise e => (Raise e, fs)
  | Ok parsed =>
      if negb (bool_decide (scheme parsed ∈ [("http" : str); ("https" : str)]))
      then (Ok None, fs)
      else
        let host := netloc parsed in
        let base_dir := ASSETS_DIR in
        let rel_parts :=
          if negb (bool_decide (host = [])) &&
             negb (bool_decide (host ∈ ALLOWED_HOSTS))
          then [("external" : str); re_sub [One host_unsafe] "_" host]
          else [] in
        let path := match path parsed with [] => ("/" : str) | p => p end in
        let path := if endswith "/" path then path ++ ("index" : str) else path in
        let path := if startswith "/" path then drop 1 path else path in
        let safe_path := re_sub [One path_unsafe] "_" path in
        let safe_path := re_sub [Many (Ascii.eqb "/") 2] "/" safe_path in
        let rel_path := Path_of (rel_parts ++ split "/" safe_path) in
        let abs_path := base_dir ++ rel_path in
        match mkdir_parents (parent abs_path) fs with
        | (Raise e, fs1) => (Raise e, fs1)
        | (Ok _, fs1) =>
            let rel_posix := as_posix (Path_of [("assets" : str)] ++ rel_path) in
            (Ok (Some (abs_path, rel_posix)), fs1)
        end
  end.

(** ** The rewrite of the captured markup *)

Definition dq : ascii := "034"%char.
Definition newline : ascii := "010"%char.

(** The lines of the raw string [rewriter_js]; the string opens with a
    line break and every line ends with one. *)
Definition rewriter_js_lines : list string :=
  [ ""%string;
    "<script>(function(){"%string;
    "  function mapUrl(u){"%string;
    "    try{"%string;
    "      var a=document.createElement('a');"%string;
    "      a.href=u;"%string;
    "      if(!a.protocol || a.protocol==='file:' || u.startsWith('/') || u.startsWith('./') || u.startsWith('../')) return u;"%string;
    "      if(a.protocol==='http:'||a.protocol==='https:'){"%string;
    "        var host=a.host; var path=a.pathname||'/';"%string;
    "        if(path.endsWith('/')) path += 'index';"%string;
    "        if(path.startsWith('/')) path = path.slice(1);"%string;
    "        var safePath=path.replace(/[^A-Za-z0-9._/,-]/g,'_').replace(/\/{2,}/g,'/');"%string;
    "        var rel='assets/';"%string;
    "        if(!/^(.+\.)?kalashnikovgroup\.ru$/i.test(host)) rel += 'external/' + host.replace(/[^A-Za-z0-9.-]/g,'_') + '/';"%string;
    "        return '/' + rel + safePath;"%string;
    "      }"%string;
    "    }catch(e){return u}"%string;
    "    return u;"%string;
    "  }"%string;
    "  var ofetch=window.fetch;"%string;
    "  if(ofetch){"%string;
    "    window.fetch=function(input, init){"%string;
    "      try{"%string;
    "        var url = (typeof input==='string')? input : (input && input.url ? input.url : input);"%string;
    "        var mapped = mapUrl(url);"%string;
    "        if(typeof input==='string') return ofetch(mapped, init||undefined);"%string;
    "        try{ return ofetch(new Request(mapped, input), init||undefined);}catch(e){ return ofetch(mapped, init||undefined); }"%string;
    "      }catch(e){ return ofetch(input, init||undefined); }"%string;
    "    }"%string;
    "  }"%string;
    "  var oopen = XMLHttpRequest.prototype.open;"%string;
    "  XMLHttpRequest.prototype.open = function(method, url){"%string;
    "    try{ arguments[1]=mapUrl(url);}catch(e){}"%string;
    "    return oopen.apply(this, arguments);"%string;
    "  };"%string;
    "})();</script>"%string
  ].

Definition rewriter_js : str :=
  flat_map (fun l : string => (l : str) ++ [newline]) rewriter_js_lines.

(** [<meta[^>]+http-equiv="Content-Security-Policy"[^>]*>\s*], ignoring
    case. *)
Definition csp_http_equiv_re : regex :=
  lit_ci "<meta" ++ [Many (not_char ">") 1] ++
  lit_ci (("http-equiv=" : str) ++ [dq] ++ ("Content-Security-Policy" : str) ++ [dq]) ++
  [Many (not_char ">") 0; ci ">"; Many is_space 0].

(** [<meta[^>]+content="[^"]*Content-Security-Policy[^"]*"[^>]*>\s*],
    ignoring case. *)
Definition csp_content_re : regex :=
  lit_ci "<meta" ++ [Many (not_char ">") 1] ++
  lit_ci (("content=" : str) ++ [dq]) ++ [Many (not_char dq) 0] ++
  lit_ci "Content-Security-Policy" ++
  [Many (not_char dq) 0; ci dq; Many (not_char ">") 0; ci ">"; Many is_space 0].

(** [\s+integrity="[^"]*"] and [\s+crossorigin="[^"]*"], ignoring case. *)
Definition attribute_re (name : str) : regex :=
  [Many is_space 1] ++ lit_ci (name ++ ("=" : str) ++ [dq]) ++
  [Many (not_char dq) 0; ci dq].

(** A Python [dict] from strings to strings, in insertion order. *)
Definition dict := list (str * str).

Definition dict_has (k : str) (d : dict) : bool := bool_decide (k ∈ d.*1).

(** [d[k] = v]: an existing key keeps its place. *)
Definition dict_set (k v : str) (d : dict) : dict :=
  if dict_has k d
  then map (fun kv => if bool_decide (kv.1 = k) then (k, v) else kv) d
  else d ++ [(k, v)].

(** The three replacements made for one pair of [url_map]. *)
Definition replace_full (src_url local_rel rewritten : str) : str :=
  replace src_url local_rel rewritten.

Definition replace_proto_rel (parsed : ParseResult) (local_rel rewritten : str) : str :=
  match netloc parsed with
  | [] => rewritten
  | _ =>
      let proto_rel := ("//" : str) ++ netloc parsed ++ path parsed in
      replace proto_rel local_rel rewritten
  end.

Definition replace_path_only (parsed : ParseResult) (local_rel rewritten : str) : str :=
  match path parsed with
  | [] => rewritten
  | _ => replace (path parsed) local_rel rewritten
  end.

(** The body of the loop over [url_map.items()]: an exception of
    [urlparse] leaves the first replacement in place. *)
Definition rewrite_pair (rewritten : str) (item : str * str) : str :=
  let '(src_url, local_rel) := item in
  let rewritten := replace_full src_url local_rel rewritten in
  match urlparse check_bracketed_netloc src_url with
  | Raise _ => rewritten
  | Ok parsed =>
      let rewritten := replace_proto_rel parsed local_rel rewritten in
      replace_path_only parsed local_rel rewritten
  end.

Definition rewrite_references (url_map : dict) (html : str) : str :=
  fold_left rewrite_pair url_map html.

(** The four [re.sub] calls that strip the policy tags and the
    [integrity] and [crossorigin] attributes. *)
Definition strip_csp (rewritten : str) : str :=
  re_sub csp_content_re [] (re_sub csp_http_equiv_re [] rewritten).

Definition strip_sri (rewritten : str) : str :=
  re_sub (attribute_re "crossorigin") []
    (re_sub (attribute_re "integrity") [] rewritten).

(** The injection of [rewriter_js]. *)
Definition inject_rewriter (rewritten : str) : str :=
  if contains "</head>" rewritten
  then replace "</head>" (rewriter_js ++ ("</head>" : str)) rewritten
  else rewriter_js ++ rewritten.

(** The rewrite at the end of [capture_page]: from the captured [html]
    and [url_map] to the text written to [index.html]. *)
Definition rewrite_stage (url_map : dict) (html : str) : str :=
  inject_rewriter (strip_sri (strip_csp (rewrite_references url_map html))).

(** ** Recording assets *)

(** What the listener reads from a Playwright response: [url], [status],
    [headers.get("content-type")] and the outcome of [await body()]. *)
Record Response : Type := mkResponse {
  resp_url : str;
  resp_status : nat;
  resp_content_type : option str;
  resp_body : result (option (list Byte.byte))
}.

(** The state shared by the listener and the scan: the dictionary
    ([saved_map] in [on_response], its copy [url_map] in the scan), the
    disk, and the log of the [write_bytes] calls that returned, each with
    the URL it was made for. *)
Record Store : Type := mkStore {
  entries : dict;
  disk : FS;
  writes : list (str * Path)
}.

Definition with_disk (st : Store) (fs : FS) : Store :=
  mkStore (entries st) fs (writes st).

Definition asset_content_types : list str :=
  [ "text/css" : str; "javascript" : str; "application/x-javascript" : str;
    "application/octet-stream" : str; "application/wasm" : str;
    "model/" : str; "application/gltf+json" : str; "application/json" : str ].

Definition asset_extensions : list str :=
  [ ".css" : str; ".js" : str; ".mjs" : str; ".png" : str; ".jpg" : str;
    ".jpeg" : str; ".webp" : str; ".gif" : str; ".svg" : str; ".ico" : str;
    ".woff" : str; ".woff2" : str; ".ttf" : str; ".eot" : str; ".otf" : str;
    ".mp4" : str; ".webm" : str; ".mp3" : str; ".ogg" : str; ".wav" : str;
    ".gltf" : str; ".glb" : str; ".bin" : str; ".wasm" : str; ".ktx" : str;
    ".ktx2" : str; ".basis" : str; ".hdr" : str; ".env" : str; ".dds" : str;
    ".json" : str ].

(** The test that selects static assets; the third disjunct is only
    evaluated when the first two fail, and its [urlparse] may raise. *)
Definition is_static_asset (url ct : str) : result bool :=
  if existsb (fun x => contains x ct) asset_content_types
     || existsb (fun ext => endswith ext (hd [] (split "?" (lower url))))
          asset_extensions
  then Ok true
  else
    match urlparse check_bracketed_netloc url with
    | Raise e => Raise e
    | Ok parsed => Ok (startswith "/_next/" (path parsed))
    end.

Definition backslash : ascii := "092"%char.

(** [on_response(response)]; every exception ends the call silently, the
    directories made before it stay. *)
Definition on_response (response : Response) (st : Store) : Store :=
  let url := resp_url response in
  if (resp_status response <? 200) || (400 <=? resp_status response) then st
  else
    let ct := lower (default [] (resp_content_type response)) in
    match is_static_asset url ct with
    | Raise _ => st
    | Ok false => st
    | Ok true =>
        match local_path_for_url url (disk st) with
        | (Raise _, fs1) => with_disk st fs1
        | (Ok None, fs1) => with_disk st fs1
        | (Ok (Some (abs_path, rel_path)), fs1) =>
            if dict_has url (entries st) then with_disk st fs1
            else
              match resp_body response with
              | Raise _ => with_disk st fs1
              | Ok None => with_disk st fs1
              | Ok (Some body) =>
                  match write_bytes abs_path body fs1 with
                  | (Raise _, fs2) => with_disk st fs2
                  | (Ok _, fs2) =>
                      mkStore
                        (dict_set url (replace [backslash] "/" rel_path) (entries st))
                        fs2
                        (writes st ++ [(url, abs_path)])
                  end
              end
        end
    end.

(** The handler gives way once, at [await response.body()], between the
    test [url in saved_map] and the write.  [on_response_start] is the
    handler up to there: it ends the handler, or leaves it waiting for
    the body with the local path it has computed. *)
Definition on_response_start (response : Response) (st : Store)
    : option (Path * str) * Store :=
  let url := resp_url response in
  if (resp_status response <? 200) || (400 <=? resp_status response) then (None, st)
  else
    let ct := lower (default [] (resp_content_type response)) in
    match is_static_asset url ct with
    | Raise _ => (None, st)
    | Ok false => (None, st)
    | Ok true =>
        match local_path_for_url url (disk st) with
        | (Raise _, fs1) => (None, with_disk st fs1)
        | (Ok None, fs1) => (None, with_disk st fs1)
        | (Ok (Some (abs_path, rel_path)), fs1) =>
            if dict_has url (entries st) then (None, with_disk st fs1)
            else (Some (abs_path, rel_path), with_disk st fs1)
        end
    end.

(** [on_response_finish] is the handler from the point where the body is
    there, or where waiting for it has raised; it runs on the store that
    the other tasks have left in the meantime. *)
Definition on_response_finish (response : Response) (loc : Path * str) (st : Store)
    : Store :=
  let '(abs_path, rel_path) := loc in
  match resp_body response with
  | Raise _ => st
  | Ok None => st
  | Ok (Some body) =>
      match write_bytes abs_path body (disk st) with
      | (Raise _, fs2) => with_disk st fs2
      | (Ok _, fs2) =>
          mkStore
            (dict_set (resp_url response) (replace [backslash] "/" rel_path) (entries st))
            fs2
            (writes st ++ [(resp_url response, abs_path)])
      end
  end.

(** The event emitter starts one task for each response.  [Arrive id r]
    runs the handler of response [r] up to its [await]; [Resume id]
    runs the rest of the handler that arrived under [id], if it
    waits.  [waiting] holds the handlers that wait, with their local
    variables. *)
Inductive event : Type :=
| Arrive (id : nat) (response : Response)
| Resume (id : nat).

Fixpoint run_handlers (events : list event)
    (waiting : list (nat * (Response * (Path * str)))) (st : Store) : Store :=
  match events with
  | [] => st
  | Arrive id response :: events' =>
      match on_response_start response st with
      | (Some loc, st1) => run_handlers events' ((id, (response, loc)) :: waiting) st1
      | (None, st1) => run_handlers events' waiting st1
      end
  | Resume id :: events' =>
      match list_find (fun w => w.1 = id) waiting with
      | Some (i, (_, (response, loc))) =>
          run_handlers events' (delete i waiting) (on_response_finish response loc st)
      | None => run_handlers events' waiting st
      end
  end.

(** [urllib.parse.urljoin]; the scan only passes its result on. *)
Variable urljoin : str -> str -> result str.

(** One round of the loop over [asset_urls].  [fetched] is what
    [fetch_binary] returns if the round gets to call it.  An exception of
    [urljoin] or [local_path_for_url] is not caught and ends the run. *)
Definition scan_asset (item : str * option (list Byte.byte)) (st : Store)
    : result unit * Store :=
  let '(u, fetched) := item in
  if bool_decide (u = []) then (Ok tt, st)
  else if startswith "data:" u then (Ok tt, st)
  else
    match urljoin START_URL u with
    | Raise e => (Raise e, st)
    | Ok abs_url =>
        if dict_has abs_url (entries st) then (Ok tt, st)
        else
          match local_path_for_url abs_url (disk st) with
          | (Raise e, fs1) => (Raise e, with_disk st fs1)
          | (Ok None, fs1) => (Ok tt, with_disk st fs1)
          | (Ok (Some (abs_path, rel_path)), fs1) =>
              let mapped := replace [backslash] "/" rel_path in
              if path_exists fs1 abs_path
              then (Ok tt, mkStore (dict_set abs_url mapped (entries st)) fs1 (writes st))
              else
                match fetched with
                | None | Some [] => (Ok tt, with_disk st fs1)
                | Some data =>
                    match write_bytes abs_path data fs1 with
                    | (Raise _, fs2) => (Ok tt, with_disk st fs2)
                    | (Ok _, fs2) =>
                        (Ok tt,
                         mkStore (dict_set abs_url mapped (entries st)) fs2
                           (writes st ++ [(abs_url, abs_path)]))
                    end
                end
          end
    end.

(** The loop over [asset_urls]. *)
Fixpoint scan_assets (items : list (str * option (list Byte.byte))) (st : Store)
    : result unit * Store :=
  match items with
  | [] => (Ok tt, st)
  | item :: items' =>
      match scan_asset item st with
      | (Ok _, st1) => scan_assets items' st1
      | (Raise e, st1) => (Raise e, st1)
      end
  end.


End Mirror.

(** ** Notions used in the statements *)

(** Two disks hold the same regular files with the same contents. *)
Definition same_files (fs fs' : FS) : Prop :=
  forall k d, fs' !! k = Some (File d) <-> fs !! k = Some (File d).

(** [re.sub(r"/{2,}", "/", s)] written as a recursion: a separator that is
    followed by another one is dropped. *)
Fixpoint collapse_slashes (s : str) : str :=
  match s with
  | [] => []
  | c :: s' =>
      if Ascii.eqb c "/" && startswith "/" s' then collapse_slashes s'
      else c :: collapse_slashes s'
  end.

(** The characters that the sanitised path may contain. *)
Definition safe_char (c : ascii) : bool := is_alnum c || char_in "._/,-" c.

(** [str.isprintable] on ASCII text. *)
Definition printable (s : str) : bool := forallb (in_range 32 126) s.

(** The two character-wise substitutions of [local_path_for_url]. *)
Definition sanitize_host (host : str) : str :=
  map (fun c => if host_unsafe c then "_"%char else c) host.

Definition sanitize_path (p : str) : str :=
  map (fun c => if path_unsafe c then "_"%char else c) p.

(** The path of a parsed URL once the index segment is added and the
    leading separator removed. *)
Definition indexed_path (parsed : ParseResult) : str :=
  let path := match path parsed with [] => ("/" : str) | p => p end in
  let path := if endswith "/" path then path ++ ("index" : str) else path in
  if startswith "/" path then drop 1 path else path.

(** The parts that name the host, for a host outside the allow-list. *)
Definition host_parts (parsed : ParseResult) : list str :=
  if negb (bool_decide (netloc parsed = [])) &&
     negb (bool_decide (netloc parsed ∈ ALLOWED_HOSTS))
  then [("external" : str); sanitize_host (netloc parsed)]
  else [].

(** The relative path that [local_path_for_url] builds from a parsed URL. *)
Definition rel_path_of (parsed : ParseResult) : Path :=
  Path_of (host_parts parsed ++
           split "/" (collapse_slashes (sanitize_path (indexed_path parsed)))).

(** The text of [Path("assets") / rel]. *)
Definition assets_posix (rel : Path) : str :=
  ("assets" : str) ++ flat_map (fun q => ("/" : str) ++ q) rel.

(** The parts that come from the path of the URL. *)
Definition path_parts (parsed : ParseResult) : Path :=
  Path_of (split "/" (collapse_slashes (sanitize_path (indexed_path parsed)))).

(** The scheme test of [local_path_for_url]. *)
Definition is_http (parsed : ParseResult) : Prop :=
  scheme parsed ∈ [("http" : str); ("https" : str)].

(** A part of a relative path: not empty, made of safe characters, and
    without a separator. *)
Definition good_part (seg : str) : Prop :=
  seg <> [] /\ Forall (fun c => safe_char c = true /\ c <> "/"%char) seg.

(** Instances of the parameters for the examples: a script directory and
    a bracket check that accepts every netloc. *)
Definition example_dir : Path := [("out" : str)].

Definition no_check : str -> bool := fun _ => true.

(** The end-to-end scenario: the markup, the URL map and the tag that the
    output should hold. *)
Definition scenario_html : str :=
  ("<script src=" : str) ++ [dq] ++ ("https://primary.example/app.js" : str)
  ++ [dq] ++ ("></script></head>" : str).

Definition scenario_url_map : dict :=
  [(("https://primary.example/app.js" : str), ("assets/app.js" : str))].

Definition scenario_tag : str :=
  ("<script src=" : str) ++ [dq] ++ ("assets/app.js" : str) ++ [dq] ++ (">" : str).

(** ** Markups of texts and tags, and the search of a pattern *)


(** The texts left by a greedy repetition, in the order in which the
    matcher tries them: longest repetition first. *)
Fixpoint runs (cls : ascii -> bool) (lo : nat) (s : str) : list str :=
  let stop := match lo with O => [s] | S _ => [] end in
  match s with
  | c :: s' => if cls c then runs cls (pred lo) s' ++ stop else stop
  | [] => stop
  end.

(** All the ways in which [r] matches at the start of [s], as the texts
    left, in the order of the backtracking search. *)
Fixpoint match_all (r : regex) (s : str) : list str :=
  match r with
  | [] => [s]
  | One cls :: r' =>
      match s with
      | c :: s' => if cls c then match_all r' s' else []
      | [] => []
      end
  | Many cls lo :: r' => flat_map (match_all r') (runs cls lo s)
  end.






























(** ** Notions of the recording properties *)

(** A later state of the disk: no node was removed, and no node changed
    its kind. *)
Definition extends (fs fs' : FS) : Prop :=
  forall k n, fs !! k = Some n ->
    exists n', fs' !! k = Some n' /\ (n = Dir <-> n' = Dir).


(** ** [sanitize_filename] *)

(** [PurePosixPath(p).name]: the last part of [p], the empty string when
    [p] has no part. *)
Definition path_name (p : str) : str :=
  default [] (last (Path_of (split "/" p))).

(** [os.path.splitext(p)]: the extension starts at the last dot of the
    last component, unless only dots stand before it there. *)
Definition splitext (p : str) : str * str :=
  let filenameIndex :=
    match rfind_char "/" p with Some sepIndex => S sepIndex | None => 0 end in
  match rfind_char "." p with
  | Some dotIndex =>
      if (filenameIndex <=? dotIndex)
         && existsb (fun c => negb (Ascii.eqb c "."))
              (take (dotIndex - filenameIndex) (drop filenameIndex p))
      then (take dotIndex p, drop dotIndex p)
      else (p, [])
  | None => (p, [])
  end.

(** The class [[^A-Za-z0-9._-]] of the file-name substitution. *)
Definition name_unsafe (c : ascii) : bool :=
  negb (is_alnum c || char_in "._-" c).

Section FileName.

Variable check_bracketed_netloc : str -> bool.

(** [sanitize_filename(url)]. *)
Definition sanitize_filename (url : str) : result str :=
  match urlparse check_bracketed_netloc url with
  | Raise e => Raise e
  | Ok parsed =>
      let path := path parsed in
      let filename :=
        if endswith "/" path || bool_decide (path = [])
        then ("index" : str) else path_name path in
      let filename :=
        if bool_decide ((splitext filename).2 = []) then
          if existsb (fun seg : string => contains seg path) [".css"%string]
          then filename ++ (".css" : str)
          else if existsb (fun seg : string => contains seg path) [".js"%string]
          then filename ++ (".js" : str)
          else if existsb (fun seg : string => contains seg path)
                    [".png"; ".jpg"; ".jpeg"; ".webp"; ".svg"; ".gif"]%string
          then filename
          else filename
        else filename in
      let filename := re_sub [One name_unsafe] "_" filename in
      Ok (match filename with [] => ("file" : str) | _ => filename end)
  end.

End FileName.

(** ** The injected script: [mapUrl]

    The function of [rewriter_js] that maps the URL of a [fetch] or
    [XMLHttpRequest] call.  The browser resolves [u] through an anchor
    element; what it reports for that anchor is an input here.  The
    argument is a string, so that no call inside the [try] block throws. *)

Record Anchor : Type := mkAnchor {
  protocol : str;
  host : str;
  pathname : str
}.

(** [.] in a JavaScript pattern: any character but a line terminator. *)
Definition js_dot (c : ascii) : bool :=
  negb (Ascii.eqb c newline || Ascii.eqb c "013").

(** [r] between [^] and [$]: some way of matching [r] uses up the text. *)
Definition re_fullmatch (r : regex) (s : str) : bool :=
  existsb (fun rest : str => bool_decide (rest = [])) (match_all r s).

(** [/^(.+\.)?kalashnikovgroup\.ru$/i.test(host)]: with the optional
    group, or without it. *)
Definition site_host_test (host : str) : bool :=
  re_fullmatch ([Many js_dot 1; ci "."] ++ lit_ci "kalashnikovgroup.ru") host
  || re_fullmatch (lit_ci "kalashnikovgroup.ru") host.

(** [mapUrl(u)], with [a] the anchor after [a.href = u]. *)
Definition mapUrl (u : str) (a : Anchor) : str :=
  if bool_decide (protocol a = []) || bool_decide (protocol a = ("file:" : str))
     || startswith "/" u || startswith "./" u || startswith "../" u
  then u
  else if bool_decide (protocol a = ("http:" : str))
          || bool_decide (protocol a = ("https:" : str))
  then
    let host := host a in
    let path := match pathname a with [] => ("/" : str) | p => p end in
    let path := if endswith "/" path then path ++ ("index" : str) else path in
    let path := if startswith "/" path then drop 1 path else path in
    let safePath :=
      re_sub [Many (Ascii.eqb "/") 2] "/" (re_sub [One path_unsafe] "_" path) in
    let rel : str := "assets/" in
    let rel :=
      if negb (site_host_test host)
      then rel ++ ("external/" : str) ++ re_sub [One host_unsafe] "_" host ++ ("/" : str)
      else rel in
    ("/" : str) ++ rel ++ safePath
  else u.

(** Further instances for the examples: a join that returns the
    reference as it is, which is what [urljoin] does with an absolute
    URL, and a few responses with a script or style content type. *)
Definition join_absolute : str -> str -> result str := fun _ u => Ok u.

Definition script_response (url : str) (body : list Byte.byte) : Response :=
  mkResponse url 200 (Some ("text/javascript" : str)) (Ok (Some body)).

Definition empty_store : Store := mkStore [] ∅ [].

(** Two responses for one URL: the run in which both handlers arrive
    before either is resumed, and the run in which the first handler is
    done before the second arrives. *)
Definition app_js : str := "https://kalashnikovgroup.ru/app.js".

Definition racing_handlers (b1 b2 : list Byte.byte) : list event :=
  [ Arrive 1 (script_response app_js b1); Arrive 2 (script_response app_js b2);
    Resume 1; Resume 2 ].

Definition handlers_in_turn (b1 b2 : list Byte.byte) : list event :=
  [ Arrive 1 (script_response app_js b1); Resume 1;
    Arrive 2 (script_response app_js b2); Resume 2 ].

(** The store after a response for a style sheet whose URL has no
    extension: its local path is a regular file named [lib]. *)
Definition lib_store : Store :=
  on_response example_dir no_check
    (mkResponse "https://kalashnikovgroup.ru/lib" 200 (Some ("text/css" : str))
       (Ok (Some [Byte.x2f])))
    empty_store.

(** * Properties *)

(** ** Strings *)

Lemma startswith_true (p s : str) : startswith p s = true <-> p `prefix_of` s.
Proof. unfold startswith. apply bool_decide_eq_true. Qed.

Lemma endswith_true (p s : str) : endswith p s = true <-> p `suffix_of` s.
Proof. unfold endswith. apply bool_decide_eq_true. Qed.

Lemma startswith_cons_singleton x c (s : str) :
  startswith [x] (c :: s) = Ascii.eqb c x.
Proof.
  unfold startswith. destruct (Ascii.eqb_spec c x) as [->|Hne].
  - apply bool_decide_eq_true. by apply prefix_cons, prefix_nil.
  - apply bool_decide_eq_false. intros [k Hk]. simpl in Hk. congruence.
Qed.

(** Replacing a one-character [old] rewrites the text character by
    character. *)
Lemma replace_single x new (s : str) :
  replace [x] new s = flat_map (fun c => if Ascii.eqb c x then new else [c]) s.
Proof.
  unfold replace. induction s as [|c s IH]; [done|].
  cbn [replace_scan flat_map]. rewrite startswith_cons_singleton.
  cbn [length Nat.sub]. rewrite IH. by destruct (Ascii.eqb c x).
Qed.

(** ** The file system *)

Lemma resolve_missing (fs : FS) (cur rest q : Path) :
  resolve fs cur rest = Ok (q, None) -> fs !! q = None.
Proof.
  revert cur. induction rest as [|x rest IH]; intros cur H; [done|].
  cbn [resolve] in H. case_bool_decide; [by eauto|].
  destruct (fs !! (cur ++ [x])) as [[|d]|] eqn:E.
  - by eauto.
  - destruct rest; simplify_eq.
  - destruct rest; by simplify_eq.
Qed.

(** Making the missing target of a resolution a directory. *)
Lemma resolve_insert_dir (fs : FS) (cur rest q : Path) :
  resolve fs cur rest = Ok (q, None) ->
  resolve (<[q := Dir]> fs) cur rest = Ok (q, Some Dir).
Proof.
  intros H. pose proof (resolve_missing _ _ _ _ H) as Hq.
  revert cur H. induction rest as [|x rest IH]; intros cur H; [done|].
  cbn [resolve] in *. case_bool_decide; [by eauto|].
  destruct (fs !! (cur ++ [x])) as [[|d]|] eqn:E.
  - rewrite lookup_insert_ne by congruence. rewrite E. by eauto.
  - destruct rest; simplify_eq.
  - destruct rest; simplify_eq. by rewrite lookup_insert_eq.
Qed.

Lemma os_mkdir_ok (p : Path) (fs fs' : FS) :
  os_mkdir p fs = (Ok tt, fs') -> is_dir fs' p = true.
Proof.
  unfold os_mkdir, is_dir. destruct (resolve fs [] p) as [[q [n|]]|e] eqn:E; intros H; simplify_eq.
  by rewrite (resolve_insert_dir _ _ _ _ E).
Qed.

Lemma mkdir_single_ok (p : Path) (fs fs' : FS) :
  mkdir_single p fs = (Ok tt, fs') -> is_dir fs' p = true.
Proof.
  unfold mkdir_single. destruct (os_mkdir p fs) as [[[]|e] fs1] eqn:E; intros H.
  - simplify_eq. by eapply os_mkdir_ok.
  - destruct e; try (destruct (is_dir fs1 p) eqn:D; by simplify_eq); simplify_eq.
Qed.

Lemma mkdir_parents_rev_ok (rp : Path) (fs fs' : FS) :
  mkdir_parents_rev rp fs = (Ok tt, fs') -> is_dir fs' (rev rp) = true.
Proof.
  intros H. destruct rp as [|x rp]; cbn [mkdir_parents_rev] in H;
    destruct (os_mkdir _ fs) as [[[]|e] fs1] eqn:E.
  - simplify_eq; eauto using os_mkdir_ok.
  - destruct e; try (destruct (is_dir fs1 _) eqn:D; by simplify_eq); simplify_eq.
  - simplify_eq; eauto using os_mkdir_ok.
  - destruct e; try (destruct (is_dir fs1 _) eqn:D; by simplify_eq).
    destruct (mkdir_parents_rev rp fs1) as [[[]|e] fs2]; [|done].
    by eapply mkdir_single_ok.
Qed.

Lemma mkdir_parents_ok (p : Path) (fs fs' : FS) :
  mkdir_parents p fs = (Ok tt, fs') -> is_dir fs' p = true.
Proof.
  intros H. apply mkdir_parents_rev_ok in H. by rewrite rev_involutive in H.
Qed.

Lemma mkdir_parents_rev_of_dir (rp : Path) (fs : FS) :
  is_dir fs (rev rp) = true -> mkdir_parents_rev rp fs = (Ok tt, fs).
Proof.
  intros H.
  assert (Hm : os_mkdir (rev rp) fs = (Raise FileExistsError, fs)).
  { unfold os_mkdir, is_dir in *. by destruct (resolve fs [] (rev rp)) as [[q [[|d]|]]|e]. }
  destruct rp as [|x rp]; cbn [mkdir_parents_rev]; by rewrite Hm, H.
Qed.

Lemma mkdir_parents_of_dir (p : Path) (fs : FS) :
  is_dir fs p = true -> mkdir_parents p fs = (Ok tt, fs).
Proof.
  intros H. apply mkdir_parents_rev_of_dir. by rewrite rev_involutive.
Qed.

Lemma same_files_refl (fs : FS) : same_files fs fs.
Proof. done. Qed.

Lemma same_files_trans (fs1 fs2 fs3 : FS) :
  same_files fs1 fs2 -> same_files fs2 fs3 -> same_files fs1 fs3.
Proof. intros H1 H2 k d. etrans; [apply H2 | apply H1]. Qed.

Lemma os_mkdir_files (p : Path) (fs fs' : FS) r :
  os_mkdir p fs = (r, fs') -> same_files fs fs'.
Proof.
  unfold os_mkdir. destruct (resolve fs [] p) as [[q [n|]]|e] eqn:E; intros H; simplify_eq; try done.
  intros k d. pose proof (resolve_missing _ _ _ _ E) as Hq.
  destruct (decide (q = k)) as [->|Hne].
  - rewrite lookup_insert_eq, Hq. split; intros; simplify_eq.
  - by rewrite lookup_insert_ne.
Qed.

Lemma mkdir_single_files (p : Path) (fs fs' : FS) r :
  mkdir_single p fs = (r, fs') -> same_files fs fs'.
Proof.
  unfold mkdir_single. destruct (os_mkdir p fs) as [[[]|e] fs1] eqn:E; intros H;
    apply os_mkdir_files in E.
  - by simplify_eq.
  - destruct e; try (destruct (is_dir fs1 p); by simplify_eq); by simplify_eq.
Qed.

Lemma mkdir_parents_rev_files (rp : Path) (fs fs' : FS) r :
  mkdir_parents_rev rp fs = (r, fs') -> same_files fs fs'.
Proof.
  revert fs fs' r. induction rp as [|x rp IH]; intros fs fs' r H; cbn [mkdir_parents_rev] in H;
    destruct (os_mkdir _ fs) as [[[]|e] fs1] eqn:E; apply os_mkdir_files in E.
  - by simplify_eq.
  - destruct e; try (destruct (is_dir fs1 _); by simplify_eq); by simplify_eq.
  - by simplify_eq.
  - destruct e; try (destruct (is_dir fs1 _); by simplify_eq).
    destruct (mkdir_parents_rev rp fs1) as [[[]|e] fs2] eqn:E2; apply IH in E2.
    + apply mkdir_single_files in H. eauto using same_files_trans.
    + simplify_eq. eauto using same_files_trans.
Qed.

Lemma mkdir_parents_files (p : Path) (fs fs' : FS) r :
  mkdir_parents p fs = (r, fs') -> same_files fs fs'.
Proof. apply mkdir_parents_rev_files. Qed.

Lemma resolve_app (fs : FS) (cur a q rest : Path) :
  resolve fs cur a = Ok (q, Some Dir) ->
  resolve fs cur (a ++ rest) = resolve fs q rest.
Proof.
  revert cur. induction a as [|y a IH]; intros cur H.
  - by simplify_eq/=.
  - cbn [resolve app] in *. case_bool_decide; [by eauto|].
    destruct (fs !! (cur ++ [y])) as [[|d]|] eqn:E.
    + by eauto.
    + destruct a; simplify_eq/=.
    + destruct a; simplify_eq/=.
Qed.

Lemma is_dir_resolve (fs : FS) (p : Path) :
  is_dir fs p = true -> exists q, resolve fs [] p = Ok (q, Some Dir).
Proof.
  unfold is_dir. destruct (resolve fs [] p) as [[q [[|d]|]]|e]; by eauto.
Qed.

(** ** Regular expressions *)

Lemma greedy_suffix cls (k : str -> option str) lo (s rest : str) :
  (forall s' r, k s' = Some r -> r `suffix_of` s') ->
  greedy cls k lo s = Some rest -> rest `suffix_of` s.
Proof.
  intros Hk. revert lo. induction s as [|c s IH]; intros lo H; cbn [greedy] in H.
  - destruct lo; [by apply Hk|done].
  - destruct (cls c).
    + destruct (greedy cls k (pred lo) s) as [r|] eqn:E.
      * simplify_eq. apply suffix_cons_r. by eapply IH.
      * destruct lo; [by apply Hk|done].
    + destruct lo; [by apply Hk|done].
Qed.

Lemma match_here_suffix (r : regex) (s rest : str) :
  match_here r s = Some rest -> rest `suffix_of` s.
Proof.
  revert s rest. induction r as [|[cls|cls lo] r IH]; intros s rest H; cbn [match_here] in H.
  - by simplify_eq.
  - destruct s as [|c s]; [done|]. destruct (cls c); [|done].
    apply suffix_cons_r. by apply IH.
  - eapply greedy_suffix; [|done]. intros s' r'. apply IH.
Qed.

Lemma sub_scan_skip (r : regex) (repl s : str) (skip : nat) :
  skip <= length s ->
  sub_scan r repl skip s = sub_scan r repl 0 (drop skip s).
Proof.
  revert skip. induction s as [|c s IH]; intros [|k] Hk; simpl in *; try done; try lia.
  apply IH. lia.
Qed.

(** One step of [re.sub]: the text is scanned from the left; a match is
    replaced and the scan goes on behind it. *)
Lemma re_sub_cons (r : regex) (repl : str) c (s : str) :
  re_sub r repl (c :: s) =
    match match_here r (c :: s) with
    | None => c :: re_sub r repl s
    | Some rest =>
        if decide (rest = c :: s) then repl ++ c :: re_sub r repl s
        else repl ++ re_sub r repl rest
    end.
Proof.
  unfold re_sub. cbn [sub_scan].
  destruct (match_here r (c :: s)) as [rest|] eqn:E; [|done].
  destruct (match_here_suffix _ _ _ E) as [m Hm]. rewrite Hm at 1.
  rewrite length_app, Nat.add_sub. destruct m as [|x m]; simpl in *.
  - by rewrite decide_True.
  - rewrite decide_False.
    + simplify_eq. rewrite sub_scan_skip by (rewrite length_app; lia).
      by rewrite drop_app_length.
    + intros ->. apply (f_equal length) in Hm. simpl in Hm. rewrite length_app in Hm. simpl in Hm. lia.
Qed.

Lemma re_sub_nil_one cls (r : regex) (repl : str) :
  re_sub (One cls :: r) repl [] = [].
Proof. done. Qed.

(** Replacing the characters of a class by one character. *)
Lemma re_sub_class cls x (s : str) :
  re_sub [One cls] [x] s = map (fun c => if cls c then x else c) s.
Proof.
  induction s as [|c s IH]; [done|].
  rewrite re_sub_cons. cbn [match_here map]. destruct (cls c); [|by rewrite IH].
  rewrite decide_False; [by rewrite IH|].
  intros H. apply (f_equal length) in H. simpl in H. lia.
Qed.

Lemma greedy_zero cls (s : str) :
  greedy cls (match_here []) 0 s = Some (lstrip cls s).
Proof.
  induction s as [|c s IH]; [done|]. cbn [greedy lstrip pred].
  destruct (cls c); [by rewrite IH|done].
Qed.

Lemma lstrip_suffix cls (s : str) : lstrip cls s `suffix_of` s.
Proof.
  induction s as [|c s IH]; [done|]. cbn [lstrip].
  destruct (cls c); [by apply suffix_cons_r|done].
Qed.

Lemma startswith_slash (s : str) :
  startswith "/" s = match s with c :: _ => Ascii.eqb c "/" | [] => false end.
Proof.
  destruct s as [|c s]; [|apply startswith_cons_singleton].
  apply bool_decide_eq_false. intros [k Hk]. done.
Qed.

Lemma collapse_slashes_cons c (s : str) :
  collapse_slashes (c :: s) =
    if Ascii.eqb c "/" && match s with d :: _ => Ascii.eqb d "/" | [] => false end
    then collapse_slashes s else c :: collapse_slashes s.
Proof. cbn [collapse_slashes]. by rewrite startswith_slash. Qed.

Lemma eqb_slash_false c : c <> "/"%char -> Ascii.eqb c "/" = false.
Proof. by intros ?%Ascii.eqb_neq. Qed.

Lemma collapse_slashes_run (s : str) :
  collapse_slashes ("/"%char :: s) = "/"%char :: collapse_slashes (lstrip (Ascii.eqb "/") s).
Proof.
  induction s as [|d s IH]; [done|].
  rewrite collapse_slashes_cons. cbn [lstrip].
  rewrite (Ascii.eqb_sym "/" d). destruct (Ascii.eqb_spec d "/") as [->|Hd]; [done|].
  by rewrite Ascii.eqb_refl.
Qed.

(** The substitution of [/{2,}] by [/] is [collapse_slashes]. *)
Lemma match_slashes_two (s : str) :
  match_here [Many (Ascii.eqb "/") 2] ("/"%char :: "/"%char :: s)
  = Some (lstrip (Ascii.eqb "/") s).
Proof. cbn [match_here greedy pred]. rewrite Ascii.eqb_refl. by rewrite greedy_zero. Qed.

Lemma match_slashes_none c (s : str) :
  Ascii.eqb c "/" && match s with d :: _ => Ascii.eqb d "/" | [] => false end = false ->
  match_here [Many (Ascii.eqb "/") 2] (c :: s) = None.
Proof.
  intros H. cbn [match_here greedy pred]. rewrite (Ascii.eqb_sym "/" c).
  destruct (Ascii.eqb c "/"); [|done]. destruct s as [|d s]; [done|].
  cbn [greedy]. rewrite (Ascii.eqb_sym "/" d). simpl in H. by rewrite H.
Qed.

Lemma re_sub_slashes (s : str) :
  re_sub [Many (Ascii.eqb "/") 2] "/" s = collapse_slashes s.
Proof.
  remember (length s) as n eqn:Hn. revert s Hn.
  induction n as [n IH] using lt_wf_ind. intros s Hn.
  destruct s as [|c s]; [done|]. rewrite re_sub_cons, collapse_slashes_cons.
  destruct (Ascii.eqb c "/" && match s with d :: _ => Ascii.eqb d "/" | [] => false end) eqn:E.
  - apply andb_true_iff in E as [->%Ascii.eqb_eq E]. destruct s as [|d s]; [done|].
    apply Ascii.eqb_eq in E as ->. rewrite match_slashes_two.
    pose proof (suffix_length _ _ (lstrip_suffix (Ascii.eqb "/") s)) as Hl.
    rewrite decide_False.
    + rewrite (IH (length (lstrip (Ascii.eqb "/") s))); [|simpl in *; lia|done].
      by rewrite collapse_slashes_run.
    + intros H. rewrite H in Hl. simpl in Hl. lia.
  - rewrite match_slashes_none by done. f_equal.
    apply (IH (length s)); simpl in *; [lia|done].
Qed.

(** ** Splitting and joining *)

Lemma split_nonempty c (s : str) : split c s <> [].
Proof.
  destruct s as [|x s]; [done|]. cbn [split].
  destruct (Ascii.eqb x c); [done|]. by destruct (split c s).
Qed.

Lemma split_app_sep c (a b : str) :
  split c (a ++ c :: b) = split c a ++ split c b.
Proof.
  induction a as [|x a IH]; cbn [split app].
  - by rewrite Ascii.eqb_refl.
  - rewrite IH. destruct (Ascii.eqb x c); [done|].
    pose proof (split_nonempty c a). by destruct (split c a).
Qed.

Lemma split_no_sep c (s : str) : c ∉ s -> split c s = [s].
Proof.
  induction s as [|x s IH]; intros Hc; [done|]. cbn [split].
  apply not_elem_of_cons in Hc as [Hx Hs].
  rewrite IH by done. destruct (Ascii.eqb_spec x c); [congruence|done].
Qed.

Lemma split_parts c (s : str) :
  Forall (fun seg : str => (c ∉ seg) /\ forall x, x ∈ seg -> x ∈ s) (split c s).
Proof.
  induction s as [|x s IH]; cbn [split].
  - constructor; [|done]. split; [apply not_elem_of_nil|done].
  - assert (Forall (fun seg : str => (c ∉ seg) /\ forall y, y ∈ seg -> y ∈ x :: s) (split c s)) as IH'.
    { eapply Forall_impl; [exact IH|]. intros seg [? Hs]. split; [done|].
      intros y Hy. apply elem_of_cons. right. by apply Hs. }
    destruct (Ascii.eqb_spec x c) as [->|Hne].
    + constructor; [|done]. split; [apply not_elem_of_nil|]. by intros y ?%elem_of_nil.
    + destruct (split c s) as [|seg segs] eqn:E; [by apply split_nonempty in E|].
      apply Forall_cons in IH' as [[Hc Hseg] Hrest]. constructor; [|done]. split.
      * apply not_elem_of_cons. split; [congruence|done].
      * intros y [->|Hy]%elem_of_cons; [apply elem_of_cons; by left|by apply Hseg].
Qed.

Lemma join_flat_map (sep p : str) (ps : list str) :
  join sep (p :: ps) = p ++ flat_map (fun q => sep ++ q) ps.
Proof.
  revert p. induction ps as [|q ps IH]; intros p.
  - by rewrite app_nil_r.
  - change (join sep (p :: q :: ps)) with (p ++ sep ++ join sep (q :: ps)).
    rewrite IH. cbn [flat_map]. by rewrite <- !app_assoc.
Qed.

(** The text of [Path("assets") / rel_path]. *)
Lemma as_posix_assets (rel : Path) :
  as_posix (Path_of [("assets" : str)] ++ rel)
  = ("assets" : str) ++ flat_map (fun q => ("/" : str) ++ q) rel.
Proof.
  change (Path_of [("assets" : str)]) with [("assets" : str)].
  cbn [app as_posix]. apply join_flat_map.
Qed.

(** ** Collapsed separators *)

Lemma collapse_slashes_Forall (P : ascii -> Prop) (s : str) :
  Forall P s -> Forall P (collapse_slashes s).
Proof.
  induction 1 as [|c s Hc Hs IH]; [done|]. rewrite collapse_slashes_cons.
  destruct (_ && _); [done|by constructor].
Qed.

Lemma collapse_slashes_head (s : str) :
  startswith "/" (collapse_slashes s) = startswith "/" s.
Proof.
  induction s as [|c s IH]; [done|]. rewrite collapse_slashes_cons.
  rewrite !startswith_slash in *.
  destruct (Ascii.eqb_spec c "/") as [->|Hc]; simpl.
  - destruct s as [|d s]; [done|]. destruct (Ascii.eqb_spec d "/") as [->|Hd]; [|done].
    by rewrite IH.
  - by apply eqb_slash_false.
Qed.

Lemma startswith_two_slashes (s : str) :
  startswith "//" s =
    match s with
    | c :: d :: _ => Ascii.eqb c "/" && Ascii.eqb d "/"
    | _ => false
    end.
Proof.
  unfold startswith. destruct s as [|c [|d s]].
  - apply bool_decide_eq_false. by intros [k Hk].
  - apply bool_decide_eq_false. by intros [k Hk].
  - destruct (Ascii.eqb_spec c "/") as [->|Hc]; [destruct (Ascii.eqb_spec d "/") as [->|Hd]|].
    + apply bool_decide_eq_true. by exists s.
    + apply bool_decide_eq_false. intros [k Hk]. simpl in Hk. congruence.
    + apply bool_decide_eq_false. intros [k Hk]. simpl in Hk. congruence.
Qed.

Lemma contains_cons (sub : str) c (s : str) :
  contains sub (c :: s) = startswith sub (c :: s) || contains sub s.
Proof. done. Qed.

Lemma collapse_slashes_no_run (s : str) :
  contains "//" (collapse_slashes s) = false.
Proof.
  induction s as [|c s IH]; [done|]. rewrite collapse_slashes_cons.
  destruct (_ && _) eqn:E; [done|].
  rewrite contains_cons, IH, orb_false_r, startswith_two_slashes.
  pose proof (collapse_slashes_head s) as Hh. rewrite !startswith_slash in Hh.
  destruct (collapse_slashes s) as [|d t]; [done|]. rewrite Hh.
  destruct s; [by rewrite andb_false_r|done].
Qed.

Lemma collapse_slashes_app (a b : str) :
  startswith "/" b = false ->
  collapse_slashes (a ++ b) = collapse_slashes a ++ collapse_slashes b.
Proof.
  intros Hb. induction a as [|c a IH]; [done|].
  cbn [app]. rewrite !collapse_slashes_cons, IH.
  assert (match a ++ b with d :: _ => Ascii.eqb d "/" | [] => false end
          = match a with d :: _ => Ascii.eqb d "/" | [] => false end) as ->.
  { destruct a; [|done]. by rewrite startswith_slash in Hb. }
  by destruct (_ && _).
Qed.

Lemma collapse_slashes_snoc (a : str) c :
  exists z, collapse_slashes (a ++ [c]) = z ++ [c].
Proof.
  induction a as [|x a [z IH]].
  { exists []. cbn [app]. by rewrite collapse_slashes_cons, andb_false_r. }
  cbn [app]. rewrite collapse_slashes_cons, IH.
  destruct (_ && _); [by exists z|by exists (x :: z)].
Qed.

(** ** The path mapper *)

(** A sanitised character is in the safe set; a sanitised host character
    is moreover no separator. *)
Lemma sanitize_path_char c :
  safe_char (if path_unsafe c then "_"%char else c) = true.
Proof. by destruct c as [[] [] [] [] [] [] [] []]. Qed.

Lemma sanitize_host_char c :
  safe_char (if host_unsafe c then "_"%char else c)
  && negb (Ascii.eqb (if host_unsafe c then "_"%char else c) "/") = true.
Proof. by destruct c as [[] [] [] [] [] [] [] []]. Qed.

Lemma sanitize_host_dot (host : str) :
  sanitize_host host = ("." : str) -> host = ("." : str).
Proof.
  destruct host as [|c [|d host]]; try done. unfold sanitize_host. simpl map.
  intros [= H]. f_equal. revert H. by destruct c as [[] [] [] [] [] [] [] []].
Qed.

Lemma Path_of_good (segs : list str) :
  Forall (fun seg : str => Forall (fun c => safe_char c = true /\ c <> "/"%char) seg) segs ->
  Forall good_part (Path_of segs).
Proof.
  intros H. unfold Path_of. apply Forall_forall. intros seg [Hp Hin]%list_elem_of_filter.
  split.
  - intros ->. done.
  - rewrite Forall_forall in H. by apply H.
Qed.

Lemma host_parts_good (parsed : ParseResult) :
  Forall (fun seg : str => Forall (fun c => safe_char c = true /\ c <> "/"%char) seg)
    (host_parts parsed).
Proof.
  unfold host_parts. destruct (_ && _); [|done].
  repeat constructor; try done.
  unfold sanitize_host. apply Forall_map, Forall_forall. intros c _. simpl.
  pose proof (sanitize_host_char c) as [H1 H2%negb_true_iff%Ascii.eqb_neq]%andb_true_iff.
  done.
Qed.

Lemma split_path_good (p : str) :
  Forall (fun seg : str => Forall (fun c => safe_char c = true /\ c <> "/"%char) seg)
    (split "/" (collapse_slashes (sanitize_path p))).
Proof.
  eapply Forall_impl; [apply split_parts|]. intros seg [Hsep Hin]. simpl in *.
  apply Forall_forall. intros c Hc. split; [|by intros ->].
  apply Hin in Hc.
  assert (Forall (fun c => safe_char c = true) (collapse_slashes (sanitize_path p))) as Hall.
  { apply collapse_slashes_Forall. unfold sanitize_path. apply Forall_map, Forall_forall.
    intros x _. apply sanitize_path_char. }
  rewrite Forall_forall in Hall. by apply Hall.
Qed.

Lemma rel_path_of_good (parsed : ParseResult) : Forall good_part (rel_path_of parsed).
Proof.
  unfold rel_path_of. apply Path_of_good, Forall_app.
  split; [apply host_parts_good|apply split_path_good].
Qed.

Lemma contains_slash_free_app (p t : str) :
  "/"%char ∉ p -> contains "//" (p ++ t) = contains "//" t.
Proof.
  induction p as [|c p IH]; intros Hp; [done|].
  apply not_elem_of_cons in Hp as [Hc Hp]. cbn [app]. rewrite contains_cons, IH by done.
  rewrite startswith_two_slashes. destruct (p ++ t); [done|].
  by rewrite (eqb_slash_false c).
Qed.

Lemma good_part_slash_free (seg : str) : good_part seg -> "/"%char ∉ seg.
Proof.
  intros [_ H] Hin. rewrite Forall_forall in H. by destruct (H _ Hin).
Qed.

(** The text of a path made of good parts has only safe characters and
    no two separators in a row. *)
Lemma assets_posix_good (rel : Path) :
  Forall good_part rel ->
  Forall (fun c => safe_char c = true) (assets_posix rel)
  /\ contains "//" (assets_posix rel) = false.
Proof.
  intros H. unfold assets_posix. split.
  - apply Forall_app. split; [by repeat constructor|].
    induction H as [|seg rel [_ Hseg] _ IH]; [done|]. cbn [flat_map].
    apply Forall_app. split; [|done]. apply Forall_app. split; [by repeat constructor|].
    eapply Forall_impl; [exact Hseg|]. by intros c [? _].
  - rewrite contains_slash_free_app
      by (intros H'%list_elem_of_In; simpl in H'; intuition congruence).
    induction H as [|seg rel Hseg _ IH]; [done|]. cbn [flat_map].
    change ((("/" : str) ++ seg) ++ flat_map (fun q => ("/" : str) ++ q) rel)
      with ("/"%char :: (seg ++ flat_map (fun q => ("/" : str) ++ q) rel)).
    rewrite contains_cons, (contains_slash_free_app seg) by (by apply good_part_slash_free).
    rewrite IH, orb_false_r, startswith_two_slashes.
    destruct Hseg as [Hne Hall]. destruct seg as [|c seg]; [done|].
    apply Forall_cons in Hall as [[_ Hc] _]. cbn [app].
    by rewrite (eqb_slash_false c), andb_false_r.
Qed.

Section PathMapper.

Variable OUT_DIR : Path.
Variable check_bracketed_netloc : str -> bool.

Lemma rel_path_of_parts (parsed : ParseResult) :
  rel_path_of parsed = Path_of (host_parts parsed) ++ path_parts parsed.
Proof. unfold rel_path_of, path_parts, Path_of. apply filter_app. Qed.

(** [local_path_for_url] in terms of the path it builds. *)
Lemma local_path_for_url_eq (url : str) (fs : FS) :
  local_path_for_url OUT_DIR check_bracketed_netloc url fs =
    match urlparse check_bracketed_netloc url with
    | Raise e => (Raise e, fs)
    | Ok parsed =>
        if negb (bool_decide (is_http parsed)) then (Ok None, fs)
        else
          let rel := rel_path_of parsed in
          match mkdir_parents (parent (ASSETS_DIR OUT_DIR ++ rel)) fs with
          | (Raise e, fs1) => (Raise e, fs1)
          | (Ok _, fs1) => (Ok (Some (ASSETS_DIR OUT_DIR ++ rel, assets_posix rel)), fs1)
          end
    end.
Proof.
  unfold local_path_for_url.
  destruct (urlparse check_bracketed_netloc url) as [parsed|e]; [|done].
  unfold is_http. destruct (negb _); [done|].
  change (list_ascii_of_string "_") with ["_"%char].
  rewrite !re_sub_class, re_sub_slashes, as_posix_assets. reflexivity.
Qed.

Lemma local_path_value (url : str) (parsed : ParseResult) (fs fs' : FS) v :
  urlparse check_bracketed_netloc url = Ok parsed ->
  local_path_for_url OUT_DIR check_bracketed_netloc url fs = (Ok v, fs') ->
  (~ is_http parsed /\ v = None /\ fs' = fs)
  \/ (is_http parsed
      /\ v = Some (ASSETS_DIR OUT_DIR ++ rel_path_of parsed, assets_posix (rel_path_of parsed))
      /\ mkdir_parents (parent (ASSETS_DIR OUT_DIR ++ rel_path_of parsed)) fs = (Ok tt, fs')).
Proof.
  intros Hp. rewrite local_path_for_url_eq, Hp. case_bool_decide as Hh; simpl.
  - destruct (mkdir_parents _ fs) as [[[]|e] fs1]; intros H; simplify_eq. by right.
  - intros H; simplify_eq. by left.
Qed.

Lemma indexed_path_directory (parsed : ParseResult) :
  path parsed = [] \/ endswith "/" (path parsed) = true ->
  exists y, indexed_path parsed = y ++ ("index" : str)
            /\ (y = [] \/ exists y0, y = y0 ++ ["/"%char]).
Proof.
  unfold indexed_path. intros [->|Hs].
  - exists []. split; [by vm_compute|by left].
  - assert (path parsed <> []) as Hne.
    { intros E. rewrite E in Hs. by vm_compute in Hs. }
    destruct (path parsed) as [|c p] eqn:E; [done|]. rewrite Hs.
    apply endswith_true in Hs as [x Hx]. cbn [app]. rewrite startswith_slash.
    destruct (Ascii.eqb_spec c "/") as [->|Hc].
    + exists p. split; [done|]. destruct x as [|d x]; simplify_eq/=; eauto.
    + exists (c :: p). split; [done|]. right. exists x. by rewrite Hx.
Qed.

Lemma path_parts_directory (parsed : ParseResult) :
  path parsed = [] \/ endswith "/" (path parsed) = true ->
  exists segs, path_parts parsed = segs ++ [("index" : str)].
Proof.
  intros (y & Hy & Hcase)%indexed_path_directory. unfold path_parts. rewrite Hy.
  unfold sanitize_path. rewrite map_app.
  change (map _ ("index" : str)) with ("index" : str).
  rewrite collapse_slashes_app by done.
  change (collapse_slashes ("index" : str)) with ("index" : str).
  destruct Hcase as [->|[y0 ->]].
  - by exists [].
  - rewrite map_app. cbn [map].
    change (if path_unsafe "/" then "_"%char else "/"%char) with "/"%char.
    destruct (collapse_slashes_snoc (map (fun c => if path_unsafe c then "_"%char else c) y0) "/")
      as [z ->].
    rewrite <- app_assoc. cbn [app]. rewrite split_app_sep.
    unfold Path_of. rewrite filter_app. by eexists.
Qed.

Lemma assets_posix_snoc (rel : Path) (seg : str) :
  assets_posix (rel ++ [seg]) = assets_posix rel ++ ("/" : str) ++ seg.
Proof.
  unfold assets_posix. rewrite flat_map_app. cbn [flat_map].
  by rewrite app_nil_r, <- !app_assoc.
Qed.

(** C4.  For an http(s) URL whose path is empty or ends in a separator,
    every value that [local_path_for_url] returns is a path whose last
    part is [index], so its text ends in [/index]. *)
Theorem directory_url_maps_to_index (url : str) (parsed : ParseResult) (fs : FS) :
  urlparse check_bracketed_netloc url = Ok parsed ->
  is_http parsed ->
  path parsed = [] \/ endswith "/" (path parsed) = true ->
  forall v fs',
    local_path_for_url OUT_DIR check_bracketed_netloc url fs = (Ok v, fs') ->
    exists abs_path rel_posix,
      v = Some (abs_path, rel_posix)
      /\ endswith "/index" rel_posix = true
      /\ last abs_path = Some ("index" : str).
Proof.
  intros Hp Hh Hdir v fs' H.
  destruct (local_path_value _ _ _ _ _ Hp H) as [[? _]|(_ & -> & _)]; [done|].
  destruct (path_parts_directory parsed Hdir) as [segs Hsegs].
  rewrite rel_path_of_parts, Hsegs, !app_assoc.
  eexists _, _. split; [done|]. split.
  - rewrite assets_posix_snoc. apply endswith_true.
    by apply suffix_app_r.
  - by rewrite last_snoc.
Qed.

(** C7.  Two calls of [local_path_for_url] on one URL that return, on
    whatever disks, return the same value; and a call repeated on the
    disk that a returning call left returns that value again and leaves
    the disk as it is. *)
Theorem local_path_is_deterministic (url : str) (fs1 fs2 fs1' fs2' : FS) v1 v2 :
  local_path_for_url OUT_DIR check_bracketed_netloc url fs1 = (Ok v1, fs1') ->
  local_path_for_url OUT_DIR check_bracketed_netloc url fs2 = (Ok v2, fs2') ->
  v1 = v2
  /\ local_path_for_url OUT_DIR check_bracketed_netloc url fs1' = (Ok v1, fs1').
Proof.
  intros H1 H2.
  destruct (urlparse check_bracketed_netloc url) as [parsed|e] eqn:Hp.
  2:{ rewrite local_path_for_url_eq, Hp in H1. done. }
  destruct (local_path_value _ _ _ _ _ Hp H1) as [(Hn1 & -> & ->)|(Hh1 & -> & Hm1)];
    destruct (local_path_value _ _ _ _ _ Hp H2) as [(Hn2 & -> & ->)|(Hh2 & -> & Hm2)];
    try done.
  split; [done|]. rewrite local_path_for_url_eq, Hp.
  rewrite bool_decide_eq_true_2 by done. cbn [negb]. cbn zeta.
  by rewrite (mkdir_parents_of_dir _ _ (mkdir_parents_ok _ _ _ Hm1)).
Qed.

(** C3.  A URL whose parsed scheme is neither [http] nor [https] is
    mapped to [None], and the disk is not touched. *)
Theorem non_http_scheme_returns_none (url : str) (parsed : ParseResult) (fs : FS) :
  urlparse check_bracketed_netloc url = Ok parsed ->
  scheme parsed <> ("http" : str) ->
  scheme parsed <> ("https" : str) ->
  local_path_for_url OUT_DIR check_bracketed_netloc url fs = (Ok None, fs).
Proof.
  intros Hp H1 H2. rewrite local_path_for_url_eq, Hp.
  rewrite bool_decide_eq_false_2; [done|].
  unfold is_http. rewrite !elem_of_cons, elem_of_nil. tauto.
Qed.

Lemma sanitize_host_proper (host : str) :
  host <> [] -> host <> ("." : str) -> proper_part (sanitize_host host).
Proof.
  intros Hne Hdot. unfold proper_part.
  rewrite !bool_decide_eq_false_2; [done| |].
  - by intros ?%sanitize_host_dot.
  - unfold sanitize_host. by destruct host.
Qed.

(** C5, amended.  For an http(s) URL whose host is not empty, not in the
    allow-list and not a single dot, the returned text is
    [assets/external/<sanitized-host>] followed by the parts of the
    sanitised path, each behind a separator.  For a host in the allow-list
    (or an empty host) it is [assets] followed by those parts alone: no
    [external] part is added, though the path of the URL may bring one. *)
Theorem host_partition (url : str) (parsed : ParseResult) (fs : FS) :
  urlparse check_bracketed_netloc url = Ok parsed ->
  is_http parsed ->
  forall v fs',
    local_path_for_url OUT_DIR check_bracketed_netloc url fs = (Ok v, fs') ->
    exists abs_path rel_posix,
      v = Some (abs_path, rel_posix)
      /\ (netloc parsed <> [] -> netloc parsed ∉ ALLOWED_HOSTS ->
          netloc parsed <> ("." : str) ->
          rel_posix = ("assets/external/" : str) ++ sanitize_host (netloc parsed)
                      ++ flat_map (fun q => ("/" : str) ++ q) (path_parts parsed))
      /\ (netloc parsed = [] \/ netloc parsed ∈ ALLOWED_HOSTS ->
          rel_posix = ("assets" : str)
                      ++ flat_map (fun q => ("/" : str) ++ q) (path_parts parsed)).
Proof.
  intros Hp Hh v fs' H.
  destruct (local_path_value _ _ _ _ _ Hp H) as [[? _]|(_ & -> & _)]; [done|].
  eexists _, _. split; [done|]. rewrite rel_path_of_parts. unfold host_parts. split.
  - intros Hne Hnot Hdot.
    rewrite !bool_decide_eq_false_2 by done. cbn [negb andb].
    unfold Path_of. rewrite filter_cons_True by done.
    rewrite filter_cons_True by (by apply sanitize_host_proper).
    unfold assets_posix. cbn [filter app flat_map list_filter].
    by rewrite <- !app_assoc.
  - intros [He|Hin].
    + by rewrite (bool_decide_eq_true_2 _ He).
    + rewrite (bool_decide_eq_true_2 _ Hin). by rewrite andb_false_r.
Qed.

(** C6, amended.  For an input that [urlparse] accepts, a path returned
    by [local_path_for_url] is [assets] followed by the proper parts of
    the host prefix and of the path in which every character outside the
    safe set was replaced by [_] and every run of separators collapsed;
    all its characters are in the safe set and no two separators are
    adjacent.  For such an input the call raises only what the creation
    of the directory of the local path raises; and it returns, and
    leaves the disk as it is, when the URL is not http(s) or when that
    directory is in place. *)
Theorem returned_path_is_sanitized (url : str) (parsed : ParseResult) (fs : FS) :
  urlparse check_bracketed_netloc url = Ok parsed ->
  (forall abs_path rel_posix fs',
     local_path_for_url OUT_DIR check_bracketed_netloc url fs
       = (Ok (Some (abs_path, rel_posix)), fs') ->
     rel_posix
       = assets_posix
           (Path_of (host_parts parsed ++
                     split "/" (collapse_slashes (sanitize_path (indexed_path parsed)))))
     /\ Forall (fun c => safe_char c = true) rel_posix
     /\ contains "//" rel_posix = false)
  /\ (forall e fs',
        local_path_for_url OUT_DIR check_bracketed_netloc url fs = (Raise e, fs') ->
        is_http parsed
        /\ mkdir_parents (parent (ASSETS_DIR OUT_DIR ++ rel_path_of parsed)) fs
           = (Raise e, fs'))
  /\ (~ is_http parsed
      \/ is_dir fs (parent (ASSETS_DIR OUT_DIR ++ rel_path_of parsed)) = true ->
      exists v,
        local_path_for_url OUT_DIR check_bracketed_netloc url fs = (Ok v, fs)).
Proof.
  intros Hp. split_and!.
  - intros abs_path rel_posix fs' H.
    destruct (local_path_value _ _ _ _ _ Hp H) as [(_ & ? & _)|(_ & [= -> ->] & _)]; [done|].
    split; [done|]. apply assets_posix_good, rel_path_of_good.
  - intros e fs'. rewrite local_path_for_url_eq, Hp.
    case_bool_decide as Hh; cbn [negb]; [|by intros ?; simplify_eq]. cbn zeta.
    destruct (mkdir_parents _ fs) as [[[]|e'] fs1]; intros H; by simplify_eq.
  - intros Hcase. rewrite local_path_for_url_eq, Hp.
    case_bool_decide as Hh; cbn [negb]; [|by eauto]. cbn zeta.
    destruct Hcase as [Hn|Hdir]; [done|].
    rewrite (mkdir_parents_of_dir _ _ Hdir). by eauto.
Qed.

End PathMapper.

(** ** The rewrite of the markup *)

Section Rewrite.

Variable check_bracketed_netloc : str -> bool.

(** C10.  When the path of a URL of the map is the single separator, the
    loop body runs the path-only replacement with it, and that
    replacement turns every separator of the markup, as the first two
    replacements left it, into the local path. *)
Theorem root_url_replaces_every_slash
    (src_url local_rel rewritten : str) (parsed : ParseResult) :
  urlparse check_bracketed_netloc src_url = Ok parsed ->
  path parsed = ("/" : str) ->
  rewrite_pair check_bracketed_netloc rewritten (src_url, local_rel) =
    flat_map (fun c => if Ascii.eqb c "/" then local_rel else [c])
      (replace_proto_rel parsed local_rel (replace_full src_url local_rel rewritten)).
Proof.
  intros Hp Hpath. unfold rewrite_pair. rewrite Hp.
  unfold replace_path_only. rewrite Hpath. apply replace_single.
Qed.

(** C1.  On the end-to-end scenario the rewrite puts the interceptor
    right before the closing head marker, but the tag it produces names
    [assetsassets/app.js]: the path-only replacement rewrites the local
    path that the first replacement has just put in.  The expected tag
    does not occur in the output. *)
Theorem end_to_end_scenario_output :
  rewrite_stage check_bracketed_netloc scenario_url_map scenario_html
    = ("<script src=" : str) ++ [dq] ++ ("assetsassets/app.js" : str) ++ [dq]
      ++ ("></script>" : str) ++ rewriter_js ++ ("</head>" : str)
  /\ contains scenario_tag
       (rewrite_stage check_bracketed_netloc scenario_url_map scenario_html) = false.
Proof. split; vm_compute; reflexivity. Qed.

(** C2.  A markup with the three forms of one mapped URL: the full URL
    and the protocol-relative form end up as [assetsassets/app.js], the
    bare path as [assets/app.js]. *)
Theorem three_forms_rewrite_differently :
  rewrite_references check_bracketed_netloc
    [(("https://kalashnikovgroup.ru/app.js" : str), ("assets/app.js" : str))]
    "https://kalashnikovgroup.ru/app.js //kalashnikovgroup.ru/app.js /app.js"
  = ("assetsassets/app.js assetsassets/app.js assets/app.js" : str).
Proof. vm_compute; reflexivity. Qed.

End Rewrite.

(** ** Recording *)

Lemma dict_has_true (k : str) (d : dict) : dict_has k d = true <-> k ∈ d.*1.
Proof. unfold dict_has. apply bool_decide_eq_true. Qed.

Lemma dict_has_false (k : str) (d : dict) : dict_has k d = false <-> k ∉ d.*1.
Proof. unfold dict_has. apply bool_decide_eq_false. Qed.

Lemma dict_set_keys (k v k' : str) (d : dict) :
  k' ∈ (dict_set k v d).*1 <-> k' = k \/ k' ∈ d.*1.
Proof.
  unfold dict_set. destruct (dict_has k d) eqn:E.
  - apply dict_has_true in E.
    assert ((map (fun kv : str * str => if bool_decide (kv.1 = k) then (k, v) else kv) d).*1 = d.*1) as ->.
    { clear E. induction d as [|[a b] d IH]; [done|]. cbn [map fmap list_fmap] in *.
      rewrite <- IH. f_equal. by case_bool_decide; simplify_eq/=. }
    split; [by right|]. by intros [->|?].
  - rewrite fmap_app, elem_of_app. cbn. rewrite list_elem_of_singleton. tauto.
Qed.

Section Recording.

Variable OUT_DIR : Path.
Variable check_bracketed_netloc : str -> bool.
Variable urljoin : str -> str -> result str.

Lemma local_path_files (url : str) (fs fs' : FS) r :
  local_path_for_url OUT_DIR check_bracketed_netloc url fs = (r, fs') ->
  same_files fs fs'.
Proof.
  rewrite local_path_for_url_eq.
  destruct (urlparse check_bracketed_netloc url) as [parsed|e]; [|by intros; simplify_eq].
  destruct (negb _); [by intros; simplify_eq|]. cbn zeta.
  destruct (mkdir_parents _ fs) as [[[]|e] fs1] eqn:E; intros; simplify_eq;
    by eapply mkdir_parents_files.
Qed.

(** A handler that nothing interrupts is its two halves in a row. *)
Lemma on_response_split (response : Response) (st : Store) :
  on_response OUT_DIR check_bracketed_netloc response st =
    match on_response_start OUT_DIR check_bracketed_netloc response st with
    | (Some loc, st1) => on_response_finish response loc st1
    | (None, st1) => st1
    end.
Proof.
  unfold on_response, on_response_start, on_response_finish.
  destruct (_ || _); [done|].
  destruct (is_static_asset _ _ _) as [[]|]; [|done|done].
  destruct (local_path_for_url _ _ _ _) as [[[[a r]|]|e] fs1]; [|done|done].
  destruct (dict_has _ _); [done|].
  destruct (resp_body response) as [[body|]|e]; [|done|done].
  cbn [disk with_disk entries writes].
  by destruct (write_bytes a body fs1) as [[[]|e] fs2].
Qed.

(** Handlers of which each is resumed before the next one arrives are
    the calls of [on_response] in a row. *)
Lemma run_handlers_in_turn (responses : list Response) (st : Store) :
  run_handlers OUT_DIR check_bracketed_netloc
    (flat_map (fun r => [Arrive 0 r; Resume 0]) responses) [] st
  = fold_left (fun st r => on_response OUT_DIR check_bracketed_netloc r st) responses st.
Proof.
  revert st. induction responses as [|r responses IH]; intros st; [done|].
  cbn [flat_map app fold_left run_handlers]. rewrite on_response_split.
  destruct (on_response_start _ _ r st) as [[loc|] st1].
  - cbn [list_find fst]. rewrite decide_True by done. cbn [delete]. apply IH.
  - cbn [list_find]. apply IH.
Qed.

(** Up to its [await] a handler only makes directories. *)
Lemma on_response_start_quiet (response : Response) (st : Store) :
  let st1 := (on_response_start OUT_DIR check_bracketed_netloc response st).2 in
  entries st1 = entries st /\ writes st1 = writes st /\ same_files (disk st) (disk st1).
Proof.
  unfold on_response_start.
  destruct (_ || _); [done|].
  destruct (is_static_asset _ _ _) as [[]|]; [|done|done].
  destruct (local_path_for_url _ _ _ _) as [[[[a r]|]|e] fs1] eqn:E;
    apply local_path_files in E; [|done|done].
  by destruct (dict_has _ _).
Qed.

(** C9.  A handler that finds its URL in [saved_map] ends before its
    [await]: it changes neither the dictionary nor any regular file and
    writes nothing; a scanned URL that is in [url_map] changes nothing at
    all.  Of two handlers for one URL that run in turn, the second finds
    the URL and one write is made, the file holding the first body.  But
    the test and the write are not one step: when both handlers arrive
    before either is resumed, both pass the test and both write, so the
    log has the URL twice and the file holds the second body. *)
Theorem check_then_write_is_not_atomic :
  (forall (response : Response) (st : Store),
     dict_has (resp_url response) (entries st) = true ->
     exists st1,
       on_response_start OUT_DIR check_bracketed_netloc response st = (None, st1)
       /\ entries st1 = entries st /\ writes st1 = writes st
       /\ same_files (disk st) (disk st1))
  /\ (forall (u abs_url : str) fetched (st : Store),
        urljoin START_URL u = Ok abs_url ->
        dict_has abs_url (entries st) = true ->
        scan_asset OUT_DIR check_bracketed_netloc urljoin (u, fetched) st = (Ok tt, st))
  /\ (forall b1 b2 : list Byte.byte,
        let st := run_handlers example_dir no_check (handlers_in_turn b1 b2) [] empty_store in
        writes st = [(app_js, [("out" : str); ("assets" : str); ("app.js" : str)])]
        /\ entries st = [(app_js, ("assets/app.js" : str))]
        /\ disk st !! [("out" : str); ("assets" : str); ("app.js" : str)] = Some (File b1))
  /\ (forall b1 b2 : list Byte.byte,
        let st := run_handlers example_dir no_check (racing_handlers b1 b2) [] empty_store in
        writes st = [(app_js, [("out" : str); ("assets" : str); ("app.js" : str)]);
                     (app_js, [("out" : str); ("assets" : str); ("app.js" : str)])]
        /\ entries st = [(app_js, ("assets/app.js" : str))]
        /\ disk st !! [("out" : str); ("assets" : str); ("app.js" : str)] = Some (File b2)).
Proof.
  split; [|split; [|split]].
  - intros response st Hhas.
    pose proof (on_response_start_quiet response st) as Hq. cbn zeta in Hq.
    destruct (on_response_start OUT_DIR check_bracketed_netloc response st) as [loc st1] eqn:E.
    exists st1. split; [|exact Hq]. f_equal.
    revert E. unfold on_response_start. rewrite Hhas.
    destruct (_ || _); [by intros [= <- _]|].
    destruct (is_static_asset _ _ _) as [[]|]; [|by intros [= <- _]..].
    by destruct (local_path_for_url _ _ _ _) as [[[[a r]|]|e] fs1]; intros [= <- _].
  - intros u abs_url fetched st Hj Hhas. unfold scan_asset. rewrite Hj, Hhas.
    case_bool_decide; [done|]. by destruct (startswith _ _).
  - intros b1 b2. cbn zeta. repeat split; vm_compute; reflexivity.
  - intros b1 b2. cbn zeta. repeat split; vm_compute; reflexivity.
Qed.

End Recording.

(** ** The backtracking search as a list of successes *)








(** ** Patterns that cannot pass a character *)








(** ** Tags and the policy patterns *)
















(** ** The substitutions on a markup of texts and tags *)















(** ** The policy substitutions and the injection *)





Lemma replace_scan_skip (old new s : str) (skip : nat) :
  skip <= length s ->
  replace_scan old new skip s = replace_scan old new 0 (drop skip s).
Proof.
  revert skip. induction s as [|c s IH]; intros [|k] Hk; simpl in *; try done; try lia.
  apply IH. lia.
Qed.

(** One step of [str.replace] for a non-empty [old]. *)
Lemma replace_cons (o : ascii) (old new : str) c (s : str) :
  replace (o :: old) new (c :: s) =
    if startswith (o :: old) (c :: s)
    then new ++ replace (o :: old) new (drop (length old) s)
    else c :: replace (o :: old) new s.
Proof.
  unfold replace. cbn [replace_scan].
  destruct (startswith (o :: old) (c :: s)) eqn:E; [|done].
  replace (length (o :: old) - 1) with (length old) by (cbn [length]; lia).
  rewrite replace_scan_skip; [done|].
  apply startswith_true in E as [k Hk]. injection Hk as _ ->.
  rewrite length_app. lia.
Qed.


Lemma app_first_occurrence (x : ascii) (a b k v : str) :
  x ∉ a -> x ∉ b -> a ++ x :: k = b ++ x :: v -> a = b.
Proof.
  revert b. induction a as [|y a IH]; intros [|z b] Ha Hb H; cbn [app] in H.
  - done.
  - injection H as -> _. exfalso. apply Hb. by left.
  - injection H as -> _. exfalso. apply Ha. by left.
  - injection H as -> H. f_equal. apply not_elem_of_cons in Ha as [_ Ha].
    apply not_elem_of_cons in Hb as [_ Hb]. by eapply IH.
Qed.











Section Policy.

Variable check_bracketed_netloc : str -> bool.


End Policy.

(** ** The disk under [mkdir] and [write_bytes] *)




Lemma resolve_file (fs : FS) (cur rest q : Path) d :
  resolve fs cur rest = Ok (q, Some (File d)) -> fs !! q = Some (File d).
Proof.
  revert cur. induction rest as [|x rest IH]; intros cur H; [done|].
  cbn [resolve] in H. case_bool_decide; [by eauto|].
  destruct (fs !! (cur ++ [x])) as [[|d']|] eqn:E.
  - by eauto.
  - destruct rest; by simplify_eq.
  - destruct rest; simplify_eq.
Qed.

Lemma resolve_extends (fs fs' : FS) (cur rest q : Path) n :
  extends fs fs' -> resolve fs cur rest = Ok (q, Some n) ->
  exists n', resolve fs' cur rest = Ok (q, Some n') /\ (n = Dir <-> n' = Dir).
Proof.
  intros Hext. revert cur. induction rest as [|x rest IH]; intros cur H.
  - simplify_eq/=. by exists Dir.
  - cbn [resolve] in *. case_bool_decide; [by eauto|].
    destruct (fs !! (cur ++ [x])) as [[|d]|] eqn:E.
    + destruct (Hext _ _ E) as (n' & -> & Hn'). destruct n' as [|d']; [by eauto|].
      by destruct Hn' as [Hn' _]; specialize (Hn' eq_refl).
    + destruct (Hext _ _ E) as (n' & -> & Hn'). destruct n' as [|d'].
      * by destruct Hn' as [_ Hn']; specialize (Hn' eq_refl).
      * destruct rest; simplify_eq. exists (File d'). split; [done|]. split; intros; done.
    + destruct rest; simplify_eq.
Qed.


Lemma is_dir_extends (fs fs' : FS) (p : Path) :
  extends fs fs' -> is_dir fs p = true -> is_dir fs' p = true.
Proof.
  intros Hext. unfold is_dir.
  destruct (resolve fs [] p) as [[q [[|d]|]]|e] eqn:E; try done. intros _.
  destruct (resolve_extends _ _ _ _ _ _ Hext E) as (n' & -> & Hn').
  destruct Hn' as [Hn' _]. by rewrite Hn'.
Qed.

Lemma os_mkdir_subseteq (p : Path) (fs fs' : FS) r :
  os_mkdir p fs = (r, fs') -> fs ⊆ fs'.
Proof.
  unfold os_mkdir. destruct (resolve fs [] p) as [[q [n|]]|e] eqn:E; intros H; simplify_eq; try done.
  apply insert_subseteq. by eapply resolve_missing.
Qed.

Lemma mkdir_single_subseteq (p : Path) (fs fs' : FS) r :
  mkdir_single p fs = (r, fs') -> fs ⊆ fs'.
Proof.
  unfold mkdir_single. destruct (os_mkdir p fs) as [[[]|e] fs1] eqn:E; intros H;
    apply os_mkdir_subseteq in E.
  - by simplify_eq.
  - destruct e; try (destruct (is_dir fs1 p); by simplify_eq); by simplify_eq.
Qed.

Lemma mkdir_parents_rev_subseteq (rp : Path) (fs fs' : FS) r :
  mkdir_parents_rev rp fs = (r, fs') -> fs ⊆ fs'.
Proof.
  revert fs fs' r. induction rp as [|x rp IH]; intros fs fs' r H; cbn [mkdir_parents_rev] in H;
    destruct (os_mkdir _ fs) as [[[]|e] fs1] eqn:E; apply os_mkdir_subseteq in E.
  - by simplify_eq.
  - destruct e; try (destruct (is_dir fs1 _); by simplify_eq); by simplify_eq.
  - by simplify_eq.
  - destruct e; try (destruct (is_dir fs1 _); by simplify_eq).
    destruct (mkdir_parents_rev rp fs1) as [[[]|e] fs2] eqn:E2; apply IH in E2.
    + apply mkdir_single_subseteq in H. by do 2 (etrans; [done|]).
    + simplify_eq. by etrans.
Qed.

Lemma mkdir_parents_subseteq (p : Path) (fs fs' : FS) r :
  mkdir_parents p fs = (r, fs') -> fs ⊆ fs'.
Proof. apply mkdir_parents_rev_subseteq. Qed.

(** What a successful [write_bytes] does. *)
Lemma write_bytes_ok (p : Path) (data : list Byte.byte) (fs fs' : FS) :
  write_bytes p data fs = (Ok tt, fs') ->
  exists q n, resolve fs [] p = Ok (q, n) /\ n <> Some Dir
              /\ (n = None \/ exists d, n = Some (File d))
              /\ fs' = <[q := File data]> fs.
Proof.
  unfold write_bytes. destruct (resolve fs [] p) as [[q [[|d]|]]|e] eqn:E; intros H; simplify_eq.
  - exists q, (Some (File d)). by eauto 10.
  - exists q, None. by eauto 10.
Qed.

Lemma write_bytes_fail (p : Path) (data : list Byte.byte) (fs fs' : FS) e :
  write_bytes p data fs = (Raise e, fs') -> fs' = fs.
Proof.
  unfold write_bytes. destruct (resolve fs [] p) as [[q [[|d]|]]|e'] eqn:E; intros H; by simplify_eq.
Qed.

Lemma resolve_insert_file (fs : FS) (cur rest q : Path) n d :
  resolve fs cur rest = Ok (q, n) -> n <> Some Dir ->
  resolve (<[q := File d]> fs) cur rest = Ok (q, Some (File d)).
Proof.
  intros H Hn.
  assert (fs !! q <> Some Dir) as Hq.
  { destruct n as [[|d']|]; [done| |].
    - by rewrite (resolve_file _ _ _ _ _ H).
    - by rewrite (resolve_missing _ _ _ _ H). }
  revert cur H. induction rest as [|x rest IH]; intros cur H.
  - by simplify_eq/=.
  - cbn [resolve] in *. case_bool_decide; [by eauto|].
    destruct (fs !! (cur ++ [x])) as [[|d']|] eqn:E.
    + rewrite lookup_insert_ne by congruence. rewrite E. by eauto.
    + destruct rest; simplify_eq. by rewrite lookup_insert_eq.
    + destruct rest; simplify_eq. by rewrite lookup_insert_eq.
Qed.


Lemma write_bytes_exists (p : Path) (data : list Byte.byte) (fs fs' : FS) :
  write_bytes p data fs = (Ok tt, fs') -> path_exists fs' p = true.
Proof.
  intros (q & n & Hres & Hn & _ & ->)%write_bytes_ok. unfold path_exists.
  by rewrite (resolve_insert_file _ _ _ _ _ data Hres Hn).
Qed.

(** Resolution of a path without [..] parts is lexical. *)
Lemma resolve_lexical (fs : FS) (cur rest q : Path) n :
  (".." : str) ∉ rest -> resolve fs cur rest = Ok (q, n) -> q = cur ++ rest.
Proof.
  revert cur. induction rest as [|x rest IH]; intros cur Hdd H.
  - simplify_eq/=. by rewrite app_nil_r.
  - apply not_elem_of_cons in Hdd as [Hx Hrest]. cbn [resolve] in H.
    rewrite bool_decide_eq_false_2 in H by done.
    destruct (fs !! (cur ++ [x])) as [[|d']|] eqn:E.
    + apply IH in H; [|done]. by rewrite <- app_assoc in H.
    + destruct rest; by simplify_eq.
    + destruct rest; by simplify_eq.
Qed.

(** ** The steps of the recording *)

Lemma safe_char_backslash c : safe_char c = true -> Ascii.eqb c backslash = false.
Proof. by destruct c as [[] [] [] [] [] [] [] []]. Qed.

(** The replacement of backslashes changes no text of safe characters. *)
Lemma replace_backslash_safe (s : str) :
  Forall (fun c => safe_char c = true) s -> replace [backslash] "/" s = s.
Proof.
  intros H. rewrite replace_single. induction H as [|c s Hc Hs IH]; [done|].
  cbn [flat_map]. by rewrite (safe_char_backslash c), IH.
Qed.

Lemma replace_backslash_posix (parsed : ParseResult) :
  replace [backslash] "/" (assets_posix (rel_path_of parsed))
  = assets_posix (rel_path_of parsed).
Proof. apply replace_backslash_safe, assets_posix_good, rel_path_of_good. Qed.

Lemma with_disk_same (st : Store) : with_disk st (disk st) = st.
Proof. by destruct st. Qed.

Lemma dict_set_new (k v : str) (d : dict) :
  dict_has k d = false -> dict_set k v d = d ++ [(k, v)].
Proof. intros H. unfold dict_set. by rewrite H. Qed.

Section RecordingSteps.

Variable OUT_DIR : Path.
Variable check_bracketed_netloc : str -> bool.
Variable urljoin : str -> str -> result str.

Lemma local_path_subseteq (url : str) (fs fs' : FS) r :
  local_path_for_url OUT_DIR check_bracketed_netloc url fs = (r, fs') -> fs ⊆ fs'.
Proof.
  rewrite local_path_for_url_eq.
  destruct (urlparse check_bracketed_netloc url) as [parsed|e]; [|by intros; simplify_eq].
  destruct (negb _); [by intros; simplify_eq|]. cbn zeta.
  destruct (mkdir_parents _ fs) as [[[]|e] fs1] eqn:E; intros; simplify_eq;
    by eapply mkdir_parents_subseteq.
Qed.

Lemma local_path_some (url : str) (fs fs' : FS) (abs_path : Path) (rel_posix : str) :
  local_path_for_url OUT_DIR check_bracketed_netloc url fs
    = (Ok (Some (abs_path, rel_posix)), fs') ->
  exists parsed,
    urlparse check_bracketed_netloc url = Ok parsed
    /\ is_http parsed
    /\ abs_path = ASSETS_DIR OUT_DIR ++ rel_path_of parsed
    /\ rel_posix = assets_posix (rel_path_of parsed)
    /\ mkdir_parents (parent abs_path) fs = (Ok tt, fs').
Proof.
  intros H. destruct (urlparse check_bracketed_netloc url) as [parsed|e] eqn:Hp.
  2:{ rewrite local_path_for_url_eq, Hp in H. done. }
  destruct (local_path_value _ _ _ _ _ _ _ Hp H) as [(_ & ? & _)|(Hh & [= -> ->] & Hm)]; [done|].
  by exists parsed.
Qed.

(** The two outcomes of [on_response]: nothing is recorded and no regular
    file changes, or the URL is appended to the dictionary and the body
    is written where the local path resolves. *)
Lemma on_response_cases (response : Response) (st : Store) :
  let st' := on_response OUT_DIR check_bracketed_netloc response st in
  (entries st' = entries st /\ writes st' = writes st
   /\ disk st ⊆ disk st' /\ same_files (disk st) (disk st'))
  \/ (exists parsed fs1 body q n,
        let abs_path := ASSETS_DIR OUT_DIR ++ rel_path_of parsed in
        urlparse check_bracketed_netloc (resp_url response) = Ok parsed
        /\ is_http parsed
        /\ mkdir_parents (parent abs_path) (disk st) = (Ok tt, fs1)
        /\ dict_has (resp_url response) (entries st) = false
        /\ resp_body response = Ok (Some body)
        /\ resolve fs1 [] abs_path = Ok (q, n) /\ n <> Some Dir
        /\ st' = mkStore
                   (entries st ++ [(resp_url response, assets_posix (rel_path_of parsed))])
                   (<[q := File body]> fs1)
                   (writes st ++ [(resp_url response, abs_path)])).
Proof.
  intros st'. subst st'. unfold on_response.
  destruct (_ || _); [by left|].
  destruct (is_static_asset _ _ _) as [[]|]; [|by left|by left].
  destruct (local_path_for_url _ _ _ _) as [[[[a r]|]|e] fs1] eqn:E;
    pose proof (local_path_subseteq _ _ _ _ E) as Hsub;
    pose proof (local_path_files _ _ _ _ _ _ E) as Hfiles; [|by left..].
  destruct (dict_has _ _) eqn:Hhas; [by left|].
  destruct (resp_body response) as [[body|]|e] eqn:Hb; [|by left..].
  destruct (write_bytes a body fs1) as [[[]|e] fs2] eqn:Hw.
  2:{ apply write_bytes_fail in Hw as ->. by left. }
  right. apply local_path_some in E as (parsed & Hp & Hh & -> & -> & Hm).
  apply write_bytes_ok in Hw as (q & n & Hres & Hn & _ & ->).
  exists parsed, fs1, body, q, n. cbn zeta.
  rewrite replace_backslash_posix, dict_set_new by done. done.
Qed.

(** The outcomes of one round of the scan. *)
Lemma scan_asset_cases (item : str * option (list Byte.byte)) (st st' : Store) r :
  scan_asset OUT_DIR check_bracketed_netloc urljoin item st = (r, st') ->
  (entries st' = entries st /\ writes st' = writes st /\ disk st ⊆ disk st')
  \/ (exists abs_url parsed,
        let abs_path := ASSETS_DIR OUT_DIR ++ rel_path_of parsed in
        r = Ok tt
        /\ urljoin START_URL item.1 = Ok abs_url
        /\ urlparse check_bracketed_netloc abs_url = Ok parsed
        /\ is_http parsed
        /\ dict_has abs_url (entries st) = false
        /\ entries st' = entries st ++ [(abs_url, assets_posix (rel_path_of parsed))]
        /\ disk st ⊆ disk st'
        /\ path_exists (disk st') abs_path = true).
Proof.
  unfold scan_asset. destruct item as [u fetched]. cbn [fst].
  case_bool_decide; [intros; simplify_eq; by left|].
  destruct (startswith _ _); [intros; simplify_eq; by left|].
  destruct (urljoin START_URL u) as [abs_url|e] eqn:Hj; [|intros; simplify_eq; by left].
  destruct (dict_has _ _) eqn:Hhas; [intros; simplify_eq; by left|].
  destruct (local_path_for_url _ _ _ _) as [[[[a rel]|]|e] fs1] eqn:E;
    [|intros; simplify_eq; left; by apply local_path_subseteq in E..].
  pose proof (local_path_subseteq _ _ _ _ E) as Hsub.
  apply local_path_some in E as (parsed & Hp & Hh & -> & -> & Hm).
  rewrite replace_backslash_posix, dict_set_new by done.
  destruct (path_exists fs1 _) eqn:Hex.
  { intros; simplify_eq. right. exists abs_url, parsed. by eauto 10. }
  destruct fetched as [[|b data]|]; [intros; simplify_eq; by left| |intros; simplify_eq; by left].
  destruct (write_bytes _ _ fs1) as [[[]|e] fs2] eqn:Hw.
  2:{ apply write_bytes_fail in Hw as ->. intros; simplify_eq. by left. }
  intros; simplify_eq. right. exists abs_url, parsed. cbn zeta. cbn [entries disk].
  pose proof (write_bytes_exists _ _ _ _ Hw) as Hex'.
  apply write_bytes_ok in Hw as (q & n & Hres & Hn & Hkind & ->).
  assert (n = None) as ->.
  { unfold path_exists in Hex. rewrite Hres in Hex. by destruct n. }
  split_and!; try done. etrans; [exact Hsub|].
  apply insert_subseteq. by eapply resolve_missing.
Qed.

End RecordingSteps.

Lemma resolve_parent_dir (fs : FS) (cur p : Path) (x : str) r :
  resolve fs cur (p ++ [x]) = Ok r ->
  exists q, resolve fs cur p = Ok (q, Some Dir).
Proof.
  revert cur. induction p as [|y p IH]; intros cur H; [by eexists|].
  cbn [app resolve] in *. case_bool_decide; [by eauto|].
  destruct (fs !! (cur ++ [y])) as [[|d]|] eqn:E; [by eauto| |];
    destruct p; simplify_eq/=.
Qed.

Lemma path_exists_parent (fs : FS) (p : Path) :
  p <> [] -> path_exists fs p = true -> is_dir fs (parent p) = true.
Proof.
  intros Hne. unfold path_exists, is_dir, parent.
  pose proof (app_removelast_last [] Hne) as Hp.
  destruct (resolve fs [] p) as [r|e] eqn:E; [|done]. intros _.
  rewrite Hp in E. apply resolve_parent_dir in E as [q E].
  match goal with
  | |- context [resolve ?a ?b ?c] =>
      assert (resolve a b c = Ok (q, Some Dir)) as -> by exact E
  end.
  done.
Qed.

Lemma rel_path_of_fields (p1 p2 : ParseResult) :
  netloc p1 = netloc p2 -> path p1 = path p2 -> rel_path_of p1 = rel_path_of p2.
Proof.
  intros Hn Hp. unfold rel_path_of, host_parts, indexed_path. by rewrite Hn, Hp.
Qed.

Section RecordingFacts.

Variable OUT_DIR : Path.
Variable check_bracketed_netloc : str -> bool.
Variable urljoin : str -> str -> result str.

Lemma assets_path_nonempty (rel : Path) : ASSETS_DIR OUT_DIR ++ rel <> [].
Proof. unfold ASSETS_DIR. by destruct OUT_DIR. Qed.

(** On a disk where the local path of a URL exists, the mapper returns
    it and leaves the disk as it is. *)
Lemma local_path_of_existing (url : str) (parsed : ParseResult) (fs : FS) :
  urlparse check_bracketed_netloc url = Ok parsed ->
  is_http parsed ->
  path_exists fs (ASSETS_DIR OUT_DIR ++ rel_path_of parsed) = true ->
  local_path_for_url OUT_DIR check_bracketed_netloc url fs
  = (Ok (Some (ASSETS_DIR OUT_DIR ++ rel_path_of parsed,
               assets_posix (rel_path_of parsed))), fs).
Proof.
  intros Hp Hh Hex. rewrite local_path_for_url_eq, Hp.
  rewrite bool_decide_eq_true_2 by done. cbn [negb]. cbn zeta.
  rewrite mkdir_parents_of_dir; [done|].
  apply path_exists_parent; [apply assets_path_nonempty|done].
Qed.









Lemma scan_asset_step (item : str * option (list Byte.byte)) (st st' : Store) r :
  scan_asset OUT_DIR check_bracketed_netloc urljoin item st = (r, st') ->
  entries st `prefix_of` entries st' /\ disk st ⊆ disk st'.
Proof.
  intros E.
  destruct (scan_asset_cases _ _ _ _ _ _ _ E)
    as [(-> & _ & Hsub)|(abs_url & parsed & _ & _ & _ & _ & _ & -> & Hsub & _)];
    (split; [|done]); [done|by apply prefix_app_r].
Qed.


(** X4.  The scan changes no node that is on the disk: every directory and
    every regular file is still there, with its contents, when the loop
    ends or is aborted. *)
Theorem scan_keeps_every_node (items : list (str * option (list Byte.byte)))
    (st : Store) :
  disk st ⊆ disk (scan_assets OUT_DIR check_bracketed_netloc urljoin items st).2.
Proof.
  revert st. induction items as [|item items IH]; intros st; cbn [scan_assets]; [done|].
  destruct (scan_asset _ _ _ item st) as [r st1] eqn:E.
  apply scan_asset_step in E as [_ Hsub].
  destruct r as [[]|e]; [|done]. by etrans.
Qed.

(** X5.  A handler changes at most one regular file.  Up to its [await]
    it leaves the dictionary and every regular file as they are.  From
    there on it leaves every regular file as it is but the one that its
    local path leads to, and it leaves the dictionary as it is, or it
    sets its URL in the dictionary and its local path then leads to a
    file with its body. *)
Theorem response_changes_one_file :
  (forall (response : Response) (st : Store),
     let st1 := (on_response_start OUT_DIR check_bracketed_netloc response st).2 in
     entries st1 = entries st /\ same_files (disk st) (disk st1))
  /\ (forall (response : Response) (abs_path : Path) (rel_path : str) (st : Store),
        let st' := on_response_finish response (abs_path, rel_path) st in
        (forall k d,
           (forall n, resolve (disk st) [] abs_path <> Ok (k, n)) ->
           disk st' !! k = Some (File d) <-> disk st !! k = Some (File d))
        /\ (entries st' = entries st
            \/ exists body q,
                 resp_body response = Ok (Some body)
                 /\ entries st'
                    = dict_set (resp_url response) (replace [backslash] "/" rel_path)
                        (entries st)
                 /\ resolve (disk st') [] abs_path = Ok (q, Some (File body)))).
Proof.
  split.
  - intros response st.
    by destruct (on_response_start_quiet OUT_DIR check_bracketed_netloc response st)
      as (? & _ & ?).
  - intros response abs_path rel_path st. cbn zeta. unfold on_response_finish.
    destruct (resp_body response) as [[body|]|e]; [|by split; [|left]..].
    destruct (write_bytes abs_path body (disk st)) as [[[]|e] fs2] eqn:Hw.
    + apply write_bytes_ok in Hw as (q & n & Hres & Hnd & _ & ->).
      cbn [entries disk]. split.
      * intros k d Hk. rewrite lookup_insert_ne; [done|].
        intros <-. by apply (Hk n).
      * right. exists body, q. split_and!; try done.
        by apply resolve_insert_file with (n := n).
    + apply write_bytes_fail in Hw as ->. rewrite with_disk_same. by split; [|left].
Qed.

(** X6.  Two different URLs with the same netloc and the same path, such
    as two versions of a script that differ in the query: when two
    responses in a row record both, both get the same local path, and the
    file there holds the body of the second response. *)
Theorem colliding_urls_last_body_wins (r1 r2 : Response) (st : Store) (p1 p2 : ParseResult) :
  urlparse check_bracketed_netloc (resp_url r1) = Ok p1 ->
  urlparse check_bracketed_netloc (resp_url r2) = Ok p2 ->
  netloc p1 = netloc p2 -> path p1 = path p2 ->
  resp_url r1 <> resp_url r2 ->
  let st2 := on_response OUT_DIR check_bracketed_netloc r2
               (on_response OUT_DIR check_bracketed_netloc r1 st) in
  resp_url r1 ∉ (entries st).*1 ->
  resp_url r2 ∉ (entries st).*1 ->
  resp_url r1 ∈ (entries st2).*1 ->
  resp_url r2 ∈ (entries st2).*1 ->
  exists v body2 q,
    resp_body r2 = Ok (Some body2)
    /\ entries st2 = entries st ++ [(resp_url r1, v); (resp_url r2, v)]
    /\ resolve (disk st2) [] (ASSETS_DIR OUT_DIR ++ rel_path_of p1)
       = Ok (q, Some (File body2)).
Proof.
  intros Hp1 Hp2 Hn Hpath Hne st2 Hn1 Hn2 Hin1 Hin2. subst st2.
  pose proof (rel_path_of_fields _ _ Hn Hpath) as Hrel.
  destruct (on_response_cases OUT_DIR check_bracketed_netloc r1 st)
    as [(E1 & _)|(q1 & fs1 & body1 & k1 & n1 & Hq1 & _ & _ & _ & _ & _ & _ & E1)].
  - exfalso.
    destruct (on_response_cases OUT_DIR check_bracketed_netloc r2
                (on_response OUT_DIR check_bracketed_netloc r1 st))
      as [(E2 & _)|(q2 & fs2 & body2 & k2 & n2 & _ & _ & _ & _ & _ & _ & _ & E2)].
    + rewrite E2, E1 in Hin1. done.
    + rewrite E2 in Hin1. cbn [entries] in Hin1. rewrite E1, fmap_app, elem_of_app in Hin1.
      destruct Hin1 as [?|?%list_elem_of_singleton]; done.
  - rewrite Hp1 in Hq1. injection Hq1 as <-.
    destruct (on_response_cases OUT_DIR check_bracketed_netloc r2
                (on_response OUT_DIR check_bracketed_netloc r1 st))
      as [(E2 & _)|(q2 & fs2 & body2 & k2 & n2 & Hq2 & _ & _ & _ & Hb2 & Hres & Hnd & E2)].
    + exfalso. rewrite E2, E1 in Hin2. cbn [entries] in Hin2.
      rewrite fmap_app, elem_of_app in Hin2.
      destruct Hin2 as [?|?%list_elem_of_singleton]; [done|]. by apply Hne.
    + rewrite Hp2 in Hq2. injection Hq2 as <-.
      exists (assets_posix (rel_path_of p1)), body2, k2. split; [done|].
      rewrite E2. cbn [entries disk]. rewrite E1. cbn [entries]. split.
      * by rewrite <- app_assoc, Hrel.
      * rewrite Hrel. by apply resolve_insert_file with (n := n2).
Qed.

End RecordingFacts.

(** A node that is no directory has the name of the directory to make. *)
Lemma mkdir_parents_blocked (p : Path) (fs : FS) :
  path_exists fs p = true -> is_dir fs p = false ->
  mkdir_parents p fs = (Raise FileExistsError, fs).
Proof.
  intros Hex Hdir. unfold mkdir_parents.
  assert (Hm : os_mkdir (rev (rev p)) fs = (Raise FileExistsError, fs)).
  { rewrite rev_involutive. unfold os_mkdir, path_exists in *.
    by destruct (resolve fs [] p) as [[q [[|d]|]]|e]. }
  assert (Hd : is_dir fs (rev (rev p)) = false) by (by rewrite rev_involutive).
  destruct (rev p) as [|x rp]; cbn [mkdir_parents_rev]; by rewrite Hm, Hd.
Qed.

(** Below a directory every name resolves: to a node or to a free key. *)
Lemma resolve_child (fs : FS) (p : Path) (x : str) :
  is_dir fs p = true ->
  exists q n, resolve fs [] (p ++ [x]) = Ok (q, n).
Proof.
  intros [q Hq]%is_dir_resolve. rewrite (resolve_app _ _ _ _ [x] Hq).
  cbn [resolve]. case_bool_decide; [by eauto|].
  destruct (fs !! (q ++ [x])) as [[|d]|]; by eauto.
Qed.

Section MapperFacts.

Variable OUT_DIR : Path.
Variable check_bracketed_netloc : str -> bool.
Variable urljoin : str -> str -> result str.

Lemma local_path_blocked (url : str) (parsed : ParseResult) (fs : FS) :
  urlparse check_bracketed_netloc url = Ok parsed ->
  is_http parsed ->
  path_exists fs (parent (ASSETS_DIR OUT_DIR ++ rel_path_of parsed)) = true ->
  is_dir fs (parent (ASSETS_DIR OUT_DIR ++ rel_path_of parsed)) = false ->
  local_path_for_url OUT_DIR check_bracketed_netloc url fs = (Raise FileExistsError, fs).
Proof.
  intros Hp Hh Hex Hdir. rewrite local_path_for_url_eq, Hp.
  rewrite bool_decide_eq_true_2 by done. cbn [negb]. cbn zeta.
  by rewrite mkdir_parents_blocked.
Qed.

(** X7.  When a node that is no directory has the name of the directory
    that the local path of a URL needs, [local_path_for_url] raises
    [FileExistsError] and the listener drops the response: the store stays
    as it is. *)
Theorem blocked_directory_drops_response (response : Response) (st : Store)
    (parsed : ParseResult) :
  urlparse check_bracketed_netloc (resp_url response) = Ok parsed ->
  is_http parsed ->
  path_exists (disk st) (parent (ASSETS_DIR OUT_DIR ++ rel_path_of parsed)) = true ->
  is_dir (disk st) (parent (ASSETS_DIR OUT_DIR ++ rel_path_of parsed)) = false ->
  local_path_for_url OUT_DIR check_bracketed_netloc (resp_url response) (disk st)
    = (Raise FileExistsError, disk st)
  /\ on_response OUT_DIR check_bracketed_netloc response st = st.
Proof.
  intros Hp Hh Hex Hdir.
  pose proof (local_path_blocked _ _ _ Hp Hh Hex Hdir) as Hl. split; [done|].
  unfold on_response. rewrite Hl.
  destruct (_ || _); [done|].
  destruct (is_static_asset _ _ _) as [[]|]; [|done|done].
  apply with_disk_same.
Qed.

(** X8.  The scan does not catch that exception: the loop ends at the
    first such URL with [FileExistsError], the URLs behind it are not
    visited, and the store is as it was. *)
Theorem blocked_directory_aborts_scan (u abs_url : str) (fetched : option (list Byte.byte))
    (items : list (str * option (list Byte.byte))) (st : Store) (parsed : ParseResult) :
  u <> [] ->
  startswith "data:" u = false ->
  urljoin START_URL u = Ok abs_url ->
  abs_url ∉ (entries st).*1 ->
  urlparse check_bracketed_netloc abs_url = Ok parsed ->
  is_http parsed ->
  path_exists (disk st) (parent (ASSETS_DIR OUT_DIR ++ rel_path_of parsed)) = true ->
  is_dir (disk st) (parent (ASSETS_DIR OUT_DIR ++ rel_path_of parsed)) = false ->
  scan_assets OUT_DIR check_bracketed_netloc urljoin ((u, fetched) :: items) st
  = (Raise FileExistsError, st).
Proof.
  intros Hu Hdata Hj Hnew%dict_has_false Hp Hh Hex Hdir.
  cbn [scan_assets]. unfold scan_asset.
  rewrite bool_decide_eq_false_2 by done. rewrite Hdata, Hj, Hnew.
  rewrite (local_path_blocked _ _ _ Hp Hh Hex Hdir). by rewrite with_disk_same.
Qed.

(** X9.  The scheme, among [http] and [https], the parameters, the query
    and the fragment of a URL play no part in its local path: two URLs
    with the same netloc and the same path get the same result on the same
    disk. *)
Theorem local_path_ignores_query (url1 url2 : str) (p1 p2 : ParseResult) (fs : FS) :
  urlparse check_bracketed_netloc url1 = Ok p1 ->
  urlparse check_bracketed_netloc url2 = Ok p2 ->
  is_http p1 -> is_http p2 ->
  netloc p1 = netloc p2 ->
  path p1 = path p2 ->
  local_path_for_url OUT_DIR check_bracketed_netloc url1 fs
  = local_path_for_url OUT_DIR check_bracketed_netloc url2 fs.
Proof.
  intros Hp1 Hp2 Hh1 Hh2 Hn Hp. rewrite !local_path_for_url_eq, Hp1, Hp2.
  rewrite !bool_decide_eq_true_2 by done. cbn [negb]. cbn zeta.
  by rewrite (rel_path_of_fields _ _ Hn Hp).
Qed.

(** X10.  After [local_path_for_url] has returned a path, the parent of
    that path is a directory: a write to the path does not fail for a
    parent that is missing or is not a directory.  It raises
    [IsADirectoryError], and leaves the disk as it is, when the path
    itself is a directory; and after a write that returns, the path
    leads to a file with the data. *)
Theorem returned_path_can_be_written (url : str) (fs fs1 : FS)
    (abs_path : Path) (rel_posix : str) (data : list Byte.byte) :
  local_path_for_url OUT_DIR check_bracketed_netloc url fs
    = (Ok (Some (abs_path, rel_posix)), fs1) ->
  is_dir fs1 (parent abs_path) = true
  /\ (is_dir fs1 abs_path = true ->
      write_bytes abs_path data fs1 = (Raise IsADirectoryError, fs1))
  /\ (forall e fs2,
        write_bytes abs_path data fs1 = (Raise e, fs2) ->
        e <> FileNotFoundError /\ e <> NotADirectoryError)
  /\ (forall fs2,
        write_bytes abs_path data fs1 = (Ok tt, fs2) ->
        exists q, resolve fs2 [] abs_path = Ok (q, Some (File data))).
Proof.
  intros (parsed & _ & _ & Habs & _ & Hm)%local_path_some.
  pose proof (mkdir_parents_ok _ _ _ Hm) as Hpar. split; [done|].
  assert (abs_path <> []) as Hne by (subst abs_path; apply assets_path_nonempty).
  pose proof (app_removelast_last [] Hne) as Hsplit.
  destruct (resolve_child fs1 (parent abs_path) (List.last abs_path []) Hpar) as (q & n & Hres).
  assert (Hres' : resolve fs1 [] abs_path = Ok (q, n)).
  { rewrite Hsplit. exact Hres. }
  split_and!.
  - unfold write_bytes, is_dir. rewrite Hres'. by destruct n as [[|d]|].
  - intros e fs2. unfold write_bytes. rewrite Hres'.
    destruct n as [[|d]|]; intros H; by simplify_eq.
  - intros fs2 (q' & n' & Hq' & Hn' & _ & ->)%write_bytes_ok. exists q'.
    by apply resolve_insert_file with (n := n').
Qed.

(** X11.  If neither [OUT_DIR] nor the local path of the URL has a [..]
    part, a regular file that is on the disk after a response either was
    there before with the same contents, or it is the file of the URL
    under [ASSETS_DIR] and holds the body of the response. *)
Theorem new_files_are_under_assets (response : Response) (st : Store)
    (parsed : ParseResult) (k : Path) (d : list Byte.byte) :
  urlparse check_bracketed_netloc (resp_url response) = Ok parsed ->
  (".." : str) ∉ OUT_DIR ->
  (".." : str) ∉ rel_path_of parsed ->
  disk (on_response OUT_DIR check_bracketed_netloc response st) !! k = Some (File d) ->
  disk st !! k = Some (File d)
  \/ (k = ASSETS_DIR OUT_DIR ++ rel_path_of parsed /\ resp_body response = Ok (Some d)).
Proof.
  intros Hp Hout Hrel Hk.
  destruct (on_response_cases OUT_DIR check_bracketed_netloc response st)
    as [(_ & _ & _ & Hf)|(parsed' & fs1 & body & q & n & Hp' & _ & Hm & _ & Hb & Hres & _ & E)].
  - left. by apply Hf.
  - rewrite Hp in Hp'. injection Hp' as <-. rewrite E in Hk. cbn [disk] in Hk.
    apply resolve_lexical in Hres.
    2:{ unfold ASSETS_DIR. rewrite !not_elem_of_app. split_and!; try done.
        by intros ?%list_elem_of_singleton. }
    cbn [app] in Hres. subst q.
    destruct (decide (ASSETS_DIR OUT_DIR ++ rel_path_of parsed = k)) as [<-|Hne].
    + rewrite lookup_insert_eq in Hk. right. split; [done|]. congruence.
    + rewrite lookup_insert_ne in Hk by done. left.
      by apply (mkdir_parents_files _ _ _ _ Hm).
Qed.

End MapperFacts.

Section ScanFacts.

Variable OUT_DIR : Path.
Variable check_bracketed_netloc : str -> bool.
Variable urljoin : str -> str -> result str.

(** X12.  When the local path of a scanned URL exists on the disk, the
    scan records the URL without a download: what [fetch_binary] would
    return plays no part, and the disk and the log stay as they are. *)
Theorem scan_reuses_existing_file (u abs_url : str) (fetched : option (list Byte.byte))
    (st : Store) (parsed : ParseResult) :
  u <> [] ->
  startswith "data:" u = false ->
  urljoin START_URL u = Ok abs_url ->
  abs_url ∉ (entries st).*1 ->
  urlparse check_bracketed_netloc abs_url = Ok parsed ->
  is_http parsed ->
  path_exists (disk st) (ASSETS_DIR OUT_DIR ++ rel_path_of parsed) = true ->
  scan_asset OUT_DIR check_bracketed_netloc urljoin (u, fetched) st
  = (Ok tt,
     mkStore (entries st ++ [(abs_url, assets_posix (rel_path_of parsed))])
       (disk st) (writes st)).
Proof.
  intros Hu Hdata Hj Hnew%dict_has_false Hp Hh Hex. unfold scan_asset.
  rewrite bool_decide_eq_false_2 by done. rewrite Hdata, Hj, Hnew.
  rewrite (local_path_of_existing _ _ _ _ _ Hp Hh Hex), Hex.
  by rewrite replace_backslash_posix, dict_set_new.
Qed.

End ScanFacts.

(** Splitting the text of a path gives its parts back. *)
Lemma split_flat_map (p : str) (rel : list str) :
  "/"%char ∉ p -> Forall (fun q : str => "/"%char ∉ q) rel ->
  split "/" (p ++ flat_map (fun q : str => ("/" : str) ++ q) rel) = p :: rel.
Proof.
  intros Hp Hrel. revert p Hp. induction Hrel as [|q rel Hq Hrel IH]; intros p Hp.
  - cbn [flat_map]. rewrite app_nil_r. by apply split_no_sep.
  - cbn [flat_map].
    change ((("/" : str) ++ q) ++ flat_map (fun q : str => ("/" : str) ++ q) rel)
      with ("/"%char :: (q ++ flat_map (fun q : str => ("/" : str) ++ q) rel)).
    rewrite split_app_sep, IH by done. by rewrite split_no_sep.
Qed.

Section PathTextFacts.

Variable OUT_DIR : Path.
Variable check_bracketed_netloc : str -> bool.

(** X13.  The text that [local_path_for_url] returns, split at its
    separators, is the returned absolute path below [OUT_DIR]: the
    reference put in the page names the file on the disk. *)
Theorem relative_text_names_the_file (url : str) (fs fs' : FS)
    (abs_path : Path) (rel_posix : str) :
  local_path_for_url OUT_DIR check_bracketed_netloc url fs
    = (Ok (Some (abs_path, rel_posix)), fs') ->
  abs_path = OUT_DIR ++ split "/" rel_posix.
Proof.
  intros (parsed & _ & _ & -> & -> & _)%local_path_some.
  unfold assets_posix. rewrite split_flat_map.
  - unfold ASSETS_DIR. by rewrite <- app_assoc.
  - by apply (bool_decide_unpack _).
  - eapply Forall_impl; [apply rel_path_of_good|]. intros q. apply good_part_slash_free.
Qed.

End PathTextFacts.

(** ** The textual rewrite *)

Lemma sub_scan_deletes (r : regex) (skip : nat) (s : str) :
  sub_scan r [] skip s `sublist_of` s.
Proof.
  revert skip. induction s as [|c s IH]; intros skip; cbn [sub_scan].
  - destruct skip; [|done]. by destruct (match_here r []).
  - destruct skip as [|k]; [|by apply sublist_cons].
    destruct (match_here r (c :: s)) as [rest|].
    + destruct (length (c :: s) - length rest); cbn [app];
        [by apply sublist_skip|by apply sublist_cons].
    + by apply sublist_skip.
Qed.

(** X14.  The four substitutions only delete: what they leave is the
    markup with some characters removed, in the same order. *)
Theorem stripping_only_deletes (s : str) :
  strip_csp s `sublist_of` s /\ strip_sri (strip_csp s) `sublist_of` s.
Proof.
  assert (strip_csp s `sublist_of` s) as H1.
  { unfold strip_csp, re_sub. etrans; apply sub_scan_deletes. }
  split; [done|]. etrans; [|exact H1].
  unfold strip_sri, re_sub. etrans; apply sub_scan_deletes.
Qed.

(** [old] is replaced where it stands if it cannot start earlier. *)
Lemma replace_skip_prefix (o : ascii) (old new t b : str) :
  (forall t', t' <> [] -> t' `suffix_of` t -> startswith (o :: old) (t' ++ b) = false) ->
  replace (o :: old) new (t ++ b) = t ++ replace (o :: old) new b.
Proof.
  induction t as [|c t IH]; intros H; [done|].
  cbn [app]. rewrite replace_cons.
  pose proof (H (c :: t) ltac:(done) ltac:(done)) as E. cbn [app] in E.
  rewrite E, IH; [done|].
  intros t' Hne Hsuf. apply H; [done|]. by apply suffix_cons_r.
Qed.

Lemma replace_here (o : ascii) (old new b : str) :
  replace (o :: old) new ((o :: old) ++ b) = new ++ replace (o :: old) new b.
Proof.
  cbn [app]. rewrite replace_cons.
  assert (startswith (o :: old) (o :: old ++ b) = true) as ->.
  { apply startswith_true. by exists b. }
  by rewrite drop_app_length.
Qed.

(** A text without the character [x] before an [old] that holds one:
    the first occurrence of [old] is that one. *)
Lemma replace_after_free (x : ascii) (old new a b : str) :
  x ∉ a -> x ∈ old ->
  replace old new (a ++ old ++ b) = a ++ new ++ replace old new b.
Proof.
  intros Ha Hx. destruct old as [|o old]; [by apply elem_of_nil in Hx|].
  rewrite replace_skip_prefix, replace_here; [done|].
  intros a' Hne Hsuf. apply bool_decide_eq_false. intros [k Hk].
  apply list_elem_of_split_l in Hx as (s0 & s1 & Hold & Hs0).
  rewrite Hold in Hk. rewrite <- !app_assoc in Hk. cbn [app] in Hk.
  rewrite app_assoc in Hk.
  assert (x ∉ a') as Ha'.
  { intros Hin. apply Ha. destruct Hsuf as [pre ->]. apply elem_of_app. by right. }
  assert (a' ++ s0 = s0) as Hlen.
  { eapply (app_first_occurrence x); [|done|exact Hk].
    rewrite not_elem_of_app. done. }
  apply (f_equal length) in Hlen. rewrite length_app in Hlen.
  destruct a'; [done|]. cbn [length] in Hlen. lia.
Qed.

Lemma contains_suffix (sub t' t : str) :
  t' `suffix_of` t -> contains sub t' = true -> contains sub t = true.
Proof.
  intros [pre ->] H. induction pre as [|c pre IH]; [done|].
  cbn [app]. rewrite contains_cons, IH. apply orb_true_r.
Qed.

Lemma contains_startswith (sub s : str) : startswith sub s = true -> contains sub s = true.
Proof. intros H. destruct s; cbn [contains]; by rewrite H. Qed.

(** A pattern that begins with two separators cannot start in a text
    without a double separator that does not end with one. *)
Lemma replace_double_slash (old new t b : str) :
  contains "//" t = false -> endswith "/" t = false ->
  replace ("/"%char :: "/"%char :: old) new (t ++ b)
  = t ++ replace ("/"%char :: "/"%char :: old) new b.
Proof.
  intros Hc He. apply replace_skip_prefix. intros t' Hne Hsuf.
  apply bool_decide_eq_false. intros [k Hk].
  destruct t' as [|c1 [|c2 t']]; [done| |].
  - cbn [app] in Hk. injection Hk as -> _.
    assert (endswith "/" t = true) as E by (by apply endswith_true). congruence.
  - cbn [app] in Hk. injection Hk as -> -> _.
    assert (contains "//" t = true) as E; [|congruence].
    eapply contains_suffix; [exact Hsuf|]. apply contains_startswith.
    by rewrite startswith_two_slashes.
Qed.

Lemma endswith_slash_app (a p : str) :
  p <> [] -> endswith "/" (a ++ p) = endswith "/" p.
Proof.
  intros Hp. destruct (endswith "/" p) eqn:E.
  - apply endswith_true in E as [k ->]. apply endswith_true. exists (a ++ k).
    by rewrite <- app_assoc.
  - apply bool_decide_eq_false. intros [k Hk]. apply bool_decide_eq_false in E. apply E.
    destruct (exists_last Hp) as (p' & c & ->).
    rewrite app_assoc in Hk. apply app_inj_tail in Hk as [_ ->]. by exists p'.
Qed.

Section RewriteFacts.

Variable check_bracketed_netloc : str -> bool.

(** X15.  Take a URL of the map whose local path is a prefix without
    separator followed by the path of the URL, as for the assets of the
    site itself.  Where the markup holds the full URL behind a text
    without separator, the loop body first puts the local path and then
    rewrites the path inside it: the markup ends up with the prefix twice.
    The text behind the URL is rewritten on its own. *)
Theorem full_url_is_rewritten_twice (src_url local_rel pre q a b : str)
    (parsed : ParseResult) :
  urlparse check_bracketed_netloc src_url = Ok parsed ->
  path parsed = "/"%char :: q ->
  contains "//" (path parsed) = false ->
  endswith "/" (path parsed) = false ->
  local_rel = pre ++ path parsed ->
  "/"%char ∈ src_url ->
  "/"%char ∉ pre ->
  "/"%char ∉ a ->
  rewrite_pair check_bracketed_netloc (a ++ src_url ++ b) (src_url, local_rel)
  = a ++ pre ++ local_rel ++ rewrite_pair check_bracketed_netloc b (src_url, local_rel).
Proof.
  intros Hp Hpath Hdbl Hend Hloc Hsrc Hpre Ha. unfold rewrite_pair. rewrite Hp.
  unfold replace_full. rewrite (replace_after_free "/") by done.
  set (b1 := replace src_url local_rel b).
  assert (replace_proto_rel parsed local_rel (a ++ local_rel ++ b1)
          = a ++ local_rel ++ replace_proto_rel parsed local_rel b1) as ->.
  { unfold replace_proto_rel. destruct (netloc parsed) as [|n nl]; [done|].
    change (list_ascii_of_string "//") with ["/"%char; "/"%char]. cbn [app].
    rewrite app_assoc, replace_double_slash, <- app_assoc; [done| |].
    - rewrite Hloc, !contains_slash_free_app by done. exact Hdbl.
    - rewrite Hloc, !app_assoc, endswith_slash_app; [done|by rewrite Hpath]. }
  set (b2 := replace_proto_rel parsed local_rel b1).
  unfold replace_path_only. rewrite Hpath.
  rewrite Hloc at 2. rewrite Hpath at 1.
  assert (a ++ (pre ++ "/"%char :: q) ++ b2 = (a ++ pre) ++ ("/"%char :: q) ++ b2) as ->
    by (by rewrite <- !app_assoc).
  rewrite (replace_after_free "/"); [by rewrite <- !app_assoc| |by left].
  rewrite not_elem_of_app. done.
Qed.

End RewriteFacts.

(** ** The injection *)

Lemma replace_absent (o : ascii) (old new s : str) :
  contains (o :: old) s = false -> replace (o :: old) new s = s.
Proof.
  intros H. rewrite <- (app_nil_r s) at 1. rewrite replace_skip_prefix.
  - by rewrite app_nil_r.
  - intros t' _ Hsuf. rewrite app_nil_r.
    destruct (startswith (o :: old) t') eqn:E; [|done].
    apply contains_startswith in E. by rewrite (contains_suffix _ _ _ Hsuf E) in H.
Qed.

Lemma contains_middle (sub a b : str) : contains sub (a ++ sub ++ b) = true.
Proof.
  apply (contains_suffix sub (sub ++ b)); [by exists a|].
  apply contains_startswith, startswith_true. by exists b.
Qed.

(** The closing head marker does not overlap itself: where it starts
    before one of its occurrences, it ends before it too. *)
Lemma closing_head_no_overlap (p rest : str) :
  p <> [] ->
  startswith "</head>" (p ++ ("</head>" : str) ++ rest) = true ->
  startswith "</head>" p = true.
Proof.
  intros Hne [k Hk]%startswith_true. apply startswith_true.
  destruct p as [|c1 [|c2 [|c3 [|c4 [|c5 [|c6 [|c7 p]]]]]]]; try done;
    try (by injection Hk).
  injection Hk as -> -> -> -> -> -> -> _. by exists p.
Qed.

Lemma replace_closing_head (new p rest : str) :
  contains "</head>" p = false ->
  replace "</head>" new (p ++ ("</head>" : str) ++ rest)
  = p ++ new ++ replace "</head>" new rest.
Proof.
  intros Hp.
  change (list_ascii_of_string "</head>") with ("<"%char :: ("/head>" : str)) in *.
  rewrite replace_skip_prefix, replace_here; [done|].
  intros t' Hne Hsuf.
  destruct (startswith _ (t' ++ _)) eqn:E; [|done].
  change ("<"%char :: ("/head>" : str)) with (list_ascii_of_string "</head>") in *.
  apply closing_head_no_overlap in E; [|done].
  apply contains_startswith in E. by rewrite (contains_suffix _ _ _ Hsuf E) in Hp.
Qed.

Lemma replace_closing_head_join (new p : str) (ps : list str) :
  Forall (fun t : str => contains "</head>" t = false) (p :: ps) ->
  replace "</head>" (new ++ ("</head>" : str)) (join "</head>" (p :: ps))
  = join (new ++ ("</head>" : str)) (p :: ps).
Proof.
  revert p. induction ps as [|p2 ps IH]; intros p [Hp Hps]%Forall_cons.
  - cbn [join]. change (list_ascii_of_string "</head>") with ("<"%char :: ("/head>" : str)) in *.
    by apply replace_absent.
  - change (join "</head>" (p :: p2 :: ps))
      with (p ++ ("</head>" : str) ++ join "</head>" (p2 :: ps)).
    change (join (new ++ ("</head>" : str)) (p :: p2 :: ps))
      with (p ++ (new ++ ("</head>" : str)) ++ join (new ++ ("</head>" : str)) (p2 :: ps)).
    by rewrite replace_closing_head, IH.
Qed.

(** X16.  The injection puts the script before every closing head marker
    of the markup, not only the first; a markup without the marker gets
    the script in front. *)
Theorem interceptor_before_every_closing_head (p : str) (ps : list str) :
  Forall (fun t : str => contains "</head>" t = false) (p :: ps) ->
  inject_rewriter (join "</head>" (p :: ps)) =
    match ps with
    | [] => rewriter_js ++ p
    | _ :: _ => join (rewriter_js ++ ("</head>" : str)) (p :: ps)
    end.
Proof.
  intros H. unfold inject_rewriter. destruct ps as [|p2 ps].
  - cbn [join]. apply Forall_cons in H as [-> _]. done.
  - assert (contains "</head>" (join "</head>" (p :: p2 :: ps)) = true) as ->.
    { change (join "</head>" (p :: p2 :: ps))
        with (p ++ ("</head>" : str) ++ join "</head>" (p2 :: ps)).
      apply contains_middle. }
    by apply replace_closing_head_join.
Qed.

(** Where [old] occurs, the replacement puts [new]. *)
Lemma replace_inserts (o : ascii) (old new s : str) :
  contains (o :: old) s = true ->
  exists pre post, replace (o :: old) new s = pre ++ new ++ post.
Proof.
  induction s as [|c s IH]; intros H.
  - exfalso. cbn [contains] in H. rewrite orb_false_r in H.
    apply startswith_true in H as [k Hk]. done.
  - rewrite replace_cons. destruct (startswith (o :: old) (c :: s)) eqn:E.
    + by exists [], (replace (o :: old) new (drop (length old) s)).
    + rewrite contains_cons, E in H. destruct (IH H) as (pre & post & ->).
      by exists (c :: pre), post.
Qed.

Section InterceptorFacts.

Variable check_bracketed_netloc : str -> bool.

(** X17.  Whatever the markup and the map, the output of the rewrite stage
    holds the script. *)
Theorem output_always_has_interceptor (url_map : dict) (html : str) :
  contains rewriter_js (rewrite_stage check_bracketed_netloc url_map html) = true.
Proof.
  unfold rewrite_stage, inject_rewriter.
  destruct (contains "</head>" _) eqn:E.
  - change (list_ascii_of_string "</head>") with ("<"%char :: ("/head>" : str)) in *.
    destruct (replace_inserts _ _ (rewriter_js ++ "<"%char :: ("/head>" : str)) _ E)
      as (pre & post & ->).
    rewrite <- !app_assoc. apply contains_middle.
  - apply contains_startswith, startswith_true. by eexists.
Qed.

End InterceptorFacts.

(** ** [sanitize_filename] *)

Lemma name_unsafe_char c :
  name_unsafe (if name_unsafe c then "_"%char else c) = false.
Proof. by destruct c as [[] [] [] [] [] [] [] []]. Qed.

Section FileNameFacts.

Variable check_bracketed_netloc : str -> bool.

(** X18.  For a URL that [urlparse] accepts, [sanitize_filename] returns a
    name that is not empty and holds only letters, digits, dots,
    underscores and hyphens, so no separator. *)
Theorem sanitized_filename_is_safe (url : str) (parsed : ParseResult) :
  urlparse check_bracketed_netloc url = Ok parsed ->
  exists name,
    sanitize_filename check_bracketed_netloc url = Ok name
    /\ name <> []
    /\ Forall (fun c => name_unsafe c = false) name.
Proof.
  intros Hp. unfold sanitize_filename. rewrite Hp. cbn zeta.
  change (list_ascii_of_string "_") with ["_"%char]. rewrite re_sub_class.
  match goal with |- context [map ?f ?l] => set (name := map f l) end.
  assert (Forall (fun c => name_unsafe c = false) name) as Hsafe.
  { apply Forall_map, Forall_forall. intros c _. apply name_unsafe_char. }
  eexists. split; [done|]. destruct name as [|c name]; [|done].
  split; [done|]. by repeat constructor.
Qed.

(** X19.  For a URL whose path is empty or ends in a separator the name is
    [index], with [.css] added if the path holds [.css], else with [.js]
    added if it holds [.js]. *)
Theorem directory_url_is_named_index (url : str) (parsed : ParseResult) :
  urlparse check_bracketed_netloc url = Ok parsed ->
  path parsed = [] \/ endswith "/" (path parsed) = true ->
  sanitize_filename check_bracketed_netloc url =
    Ok (if contains ".css" (path parsed) then ("index.css" : str)
        else if contains ".js" (path parsed) then ("index.js" : str)
        else ("index" : str)).
Proof.
  intros Hp Hdir. unfold sanitize_filename. rewrite Hp. cbn zeta.
  assert (endswith "/" (path parsed) || bool_decide (path parsed = []) = true) as ->.
  { destruct Hdir as [->| ->]; [done|done]. }
  change (bool_decide ((splitext ("index" : str)).2 = [])) with true. cbn match.
  cbn [existsb]. rewrite !orb_false_r.
  destruct (contains ".css" (path parsed)); [vm_compute; reflexivity|].
  destruct (contains ".js" (path parsed)); [vm_compute; reflexivity|].
  destruct (_ || _); vm_compute; reflexivity.
Qed.

End FileNameFacts.

(** ** [mapUrl] *)

Lemma join_split c (s : str) : join [c] (split c s) = s.
Proof.
  induction s as [|x s IH]; [done|]. cbn [split].
  pose proof (split_nonempty c s) as Hs.
  destruct (split c s) as [|seg segs] eqn:E; [done|].
  rewrite join_flat_map in IH.
  destruct (Ascii.eqb_spec x c) as [->|Hne].
  - rewrite join_flat_map. cbn [flat_map app]. f_equal. exact IH.
  - rewrite join_flat_map. cbn [app]. f_equal. exact IH.
Qed.

Lemma flat_map_split (s : str) :
  flat_map (fun q : str => ("/" : str) ++ q) (split "/" s) = ("/" : str) ++ s.
Proof.
  pose proof (join_split "/" s) as H. pose proof (split_nonempty "/" s) as Hs.
  destruct (split "/" s) as [|seg segs]; [done|].
  rewrite join_flat_map in H. cbn [flat_map]. rewrite <- app_assoc.
  f_equal. exact H.
Qed.

Lemma Path_of_proper (segs : list str) :
  Forall (fun seg => proper_part seg = true) segs -> Path_of segs = segs.
Proof.
  unfold Path_of. induction 1 as [|seg segs Hseg Hsegs IH]; [done|].
  rewrite filter_cons_True by (by rewrite Hseg). by rewrite IH.
Qed.

Lemma runs_self cls (v : str) : v ∈ runs cls 0 v.
Proof.
  destruct v as [|c v]; cbn [runs]; [by left|].
  destruct (cls c); [|by left]. apply elem_of_app. right. by left.
Qed.

(** A repetition can stop behind any run of the class that is long
    enough. *)
Lemma runs_after cls lo (x v : str) :
  Forall (fun c => cls c = true) x -> lo <= length x -> v ∈ runs cls lo (x ++ v).
Proof.
  intros Hx. revert lo. induction Hx as [|c x Hc Hx IH]; intros lo Hlo.
  - cbn [length] in Hlo. assert (lo = 0) as -> by lia. apply runs_self.
  - cbn [app runs]. rewrite Hc. apply elem_of_app. left. apply IH.
    cbn [length] in Hlo. lia.
Qed.

Lemma site_host_test_allowed (h : str) : h ∈ ALLOWED_HOSTS -> site_host_test h = true.
Proof.
  unfold ALLOWED_HOSTS. rewrite !elem_of_cons, elem_of_nil.
  intros [->|[->|[->|[]]]]; vm_compute; reflexivity.
Qed.

(** Every name below the site domain passes the test of the script. *)
Lemma site_host_test_subdomain (x : str) :
  x <> [] -> Forall (fun c => js_dot c = true) x ->
  site_host_test (x ++ (".kalashnikovgroup.ru" : str)) = true.
Proof.
  intros Hne Hx. unfold site_host_test. apply orb_true_iff. left.
  unfold re_fullmatch. apply existsb_exists. exists []. split; [|done].
  change ([Many js_dot 1; ci "."] ++ lit_ci "kalashnikovgroup.ru")
    with (Many js_dot 1 :: lit_ci ".kalashnikovgroup.ru").
  cbn [match_all]. apply in_flat_map. exists (".kalashnikovgroup.ru" : str). split.
  - apply list_elem_of_In, runs_after; [done|]. destruct x; [done|]. cbn [length]. lia.
  - vm_compute. by left.
Qed.

Lemma mapUrl_http (u : str) (a : Anchor) :
  protocol a = ("http:" : str) \/ protocol a = ("https:" : str) ->
  startswith "/" u = false -> startswith "./" u = false -> startswith "../" u = false ->
  mapUrl u a =
    ("/" : str)
    ++ (if negb (site_host_test (host a))
        then ("assets/external/" : str) ++ sanitize_host (host a) ++ ("/" : str)
        else ("assets/" : str))
    ++ collapse_slashes
         (sanitize_path (indexed_path (mkParseResult [] [] (pathname a) [] [] []))).
Proof.
  intros Hproto H1 H2 H3. unfold mapUrl. rewrite H1, H2, H3, !orb_false_r.
  assert (bool_decide (protocol a = []) || bool_decide (protocol a = ("file:" : str)) = false) as ->.
  { destruct Hproto as [-> | ->]; done. }
  assert (bool_decide (protocol a = ("http:" : str))
          || bool_decide (protocol a = ("https:" : str)) = true) as ->.
  { destruct Hproto as [-> | ->]; done. }
  cbn zeta. change (list_ascii_of_string "_") with ["_"%char].
  rewrite !re_sub_class, re_sub_slashes.
  unfold indexed_path, sanitize_path, sanitize_host. cbn [path].
  destruct (negb _); [|done]. by rewrite <- !app_assoc.
Qed.

(** X20.  [mapUrl] returns its argument unchanged, or a path that starts
    with [/assets/] and is made of safe characters only. *)
Theorem mapped_url_shape (u : str) (a : Anchor) :
  mapUrl u a = u
  \/ (startswith "/assets/" (mapUrl u a) = true
      /\ Forall (fun c => safe_char c = true) (mapUrl u a)).
Proof.
  destruct (bool_decide (protocol a = []) || bool_decide (protocol a = ("file:" : str))
            || startswith "/" u || startswith "./" u || startswith "../" u) eqn:E1.
  { left. unfold mapUrl. by rewrite E1. }
  destruct (bool_decide (protocol a = ("http:" : str))
            || bool_decide (protocol a = ("https:" : str))) eqn:E2.
  2:{ left. unfold mapUrl. by rewrite E1, E2. }
  right. apply orb_false_iff in E1 as [[[_ H1]%orb_false_iff H2]%orb_false_iff H3].
  rewrite mapUrl_http; try done.
  2:{ apply orb_true_iff in E2 as [?%bool_decide_eq_true|?%bool_decide_eq_true]; eauto. }
  assert (Forall (fun c => safe_char c = true)
            (collapse_slashes (sanitize_path
               (indexed_path (mkParseResult [] [] (pathname a) [] [] []))))) as Hpath.
  { apply collapse_slashes_Forall. unfold sanitize_path. apply Forall_map, Forall_forall.
    intros x _. apply sanitize_path_char. }
  destruct (negb _); split.
  - apply startswith_true. eexists. reflexivity.
  - apply Forall_app. split; [by repeat constructor|]. apply Forall_app. split; [|done].
    apply Forall_app. split; [by repeat constructor|]. apply Forall_app.
    split; [|by repeat constructor].
    unfold sanitize_host. apply Forall_map, Forall_forall. intros c _. simpl.
    by pose proof (sanitize_host_char c) as [? _]%andb_true_iff.
  - apply startswith_true. eexists. reflexivity.
  - apply Forall_app. split; [by repeat constructor|]. apply Forall_app. split; [|done].
    by repeat constructor.
Qed.

Section MapUrlFacts.

Variable OUT_DIR : Path.
Variable check_bracketed_netloc : str -> bool.

Lemma assets_posix_external (h : str) (segs : list str) :
  assets_posix (("external" : str) :: h :: segs)
  = ("assets/external/" : str) ++ h ++ flat_map (fun q : str => ("/" : str) ++ q) segs.
Proof. unfold assets_posix. cbn [flat_map]. by rewrite <- !app_assoc. Qed.

(** X21.  Take an http(s) URL whose host is in [ALLOWED_HOSTS], or is
    rejected by the host test of the script and neither empty nor a single
    dot, and whose sanitised path has no empty and no [.] segment.  Let
    the argument of [mapUrl] not begin with [/], [./] or [../], and let
    the browser report for it the host and the path that [urlparse]
    reports for the URL.  Then [mapUrl] returns the local path of
    [local_path_for_url] behind a separator.  The browser reports
    another path than [urlparse] when it escapes or normalises the path,
    as for a path with a space; the example [mapUrl_escaped_path_differs]
    is such a URL, and there the two results differ. *)
Theorem mapUrl_agrees_with_local_path (url u : str) (a : Anchor) (parsed : ParseResult)
    (fs fs' : FS) (abs_path : Path) (rel_posix : str) :
  urlparse check_bracketed_netloc url = Ok parsed ->
  local_path_for_url OUT_DIR check_bracketed_netloc url fs
    = (Ok (Some (abs_path, rel_posix)), fs') ->
  protocol a = ("http:" : str) \/ protocol a = ("https:" : str) ->
  host a = netloc parsed ->
  pathname a = path parsed ->
  startswith "/" u = false -> startswith "./" u = false -> startswith "../" u = false ->
  netloc parsed ∈ ALLOWED_HOSTS
  \/ (site_host_test (netloc parsed) = false
      /\ netloc parsed <> [] /\ netloc parsed <> ("." : str)) ->
  Forall (fun seg => proper_part seg = true)
    (split "/" (collapse_slashes (sanitize_path (indexed_path parsed)))) ->
  mapUrl u a = ("/" : str) ++ rel_posix.
Proof.
  intros Hp Hl Hproto Hhost Hpathname H1 H2 H3 Hclass Hproper.
  apply local_path_some in Hl as (parsed' & Hp' & _ & _ & -> & _).
  rewrite Hp in Hp'. injection Hp' as <-.
  rewrite mapUrl_http by done. rewrite Hhost, Hpathname.
  change (indexed_path (mkParseResult [] [] (path parsed) [] [] []))
    with (indexed_path parsed).
  f_equal. unfold rel_path_of, Path_of. rewrite filter_app.
  fold (Path_of (split "/" (collapse_slashes (sanitize_path (indexed_path parsed))))).
  rewrite (Path_of_proper _ Hproper). unfold host_parts.
  destruct Hclass as [Hin|(Htest & Hne & Hdot)].
  - rewrite (site_host_test_allowed _ Hin), (bool_decide_eq_true_2 _ Hin), andb_false_r.
    cbn [negb filter app list_filter]. unfold assets_posix. rewrite flat_map_split.
    reflexivity.
  - assert (netloc parsed ∉ ALLOWED_HOSTS) as Hnot.
    { intros Hin. by rewrite (site_host_test_allowed _ Hin) in Htest. }
    rewrite Htest, !bool_decide_eq_false_2 by done. cbn [negb andb].
    rewrite filter_cons_True by done.
    rewrite filter_cons_True by (by apply sanitize_host_proper).
    rewrite filter_nil. cbn [app]. rewrite assets_posix_external, flat_map_split.
    by rewrite <- !app_assoc.
Qed.

(** X22.  For a host below the site domain that is not in [ALLOWED_HOSTS]
    the two disagree: [local_path_for_url] puts the file under
    [assets/external/<host>], and [mapUrl] looks for it right under
    [/assets/]. *)
Theorem mapUrl_keeps_subdomains_internal (url u x : str) (a : Anchor)
    (parsed : ParseResult) (fs fs' : FS) (abs_path : Path) (rel_posix : str) :
  urlparse check_bracketed_netloc url = Ok parsed ->
  local_path_for_url OUT_DIR check_bracketed_netloc url fs
    = (Ok (Some (abs_path, rel_posix)), fs') ->
  protocol a = ("http:" : str) \/ protocol a = ("https:" : str) ->
  host a = netloc parsed ->
  pathname a = path parsed ->
  startswith "/" u = false -> startswith "./" u = false -> startswith "../" u = false ->
  netloc parsed = x ++ (".kalashnikovgroup.ru" : str) ->
  x <> [] -> Forall (fun c => js_dot c = true) x ->
  netloc parsed ∉ ALLOWED_HOSTS ->
  Forall (fun seg => proper_part seg = true)
    (split "/" (collapse_slashes (sanitize_path (indexed_path parsed)))) ->
  let safe_path := collapse_slashes (sanitize_path (indexed_path parsed)) in
  mapUrl u a = ("/assets/" : str) ++ safe_path
  /\ ("/" : str) ++ rel_posix
     = ("/assets/external/" : str) ++ sanitize_host (netloc parsed) ++ ("/" : str) ++ safe_path
  /\ mapUrl u a <> ("/" : str) ++ rel_posix.
Proof.
  intros Hp Hl Hproto Hhost Hpathname H1 H2 H3 Hsub Hne Hx Hnot Hproper safe_path.
  apply local_path_some in Hl as (parsed' & Hp' & _ & _ & -> & _).
  rewrite Hp in Hp'. injection Hp' as <-.
  assert (mapUrl u a = ("/assets/" : str) ++ safe_path) as Hjs.
  { rewrite mapUrl_http by done. rewrite Hhost, Hpathname, Hsub.
    by rewrite (site_host_test_subdomain x Hne Hx). }
  assert (("/" : str) ++ assets_posix (rel_path_of parsed)
          = ("/assets/external/" : str) ++ sanitize_host (netloc parsed)
            ++ ("/" : str) ++ safe_path) as Hpy.
  { unfold rel_path_of, Path_of. rewrite filter_app.
    fold (Path_of (split "/" (collapse_slashes (sanitize_path (indexed_path parsed))))).
    rewrite (Path_of_proper _ Hproper). unfold host_parts.
    assert (netloc parsed <> []) as Hnl by (rewrite Hsub; by destruct x).
    assert (netloc parsed <> ("." : str)) as Hdot.
    { rewrite Hsub. destruct x as [|c [|d x]]; done. }
    rewrite !bool_decide_eq_false_2 by done. cbn [negb andb].
    rewrite filter_cons_True by done.
    rewrite filter_cons_True by (by apply sanitize_host_proper).
    rewrite filter_nil. cbn [app]. rewrite assets_posix_external, flat_map_split.
    reflexivity. }
  split; [done|]. split; [done|]. rewrite Hjs, Hpy.
  intros E. apply (f_equal length) in E. rewrite !length_app in E.
  cbn [length list_ascii_of_string] in E. lia.
Qed.

End MapUrlFacts.

(** ** Examples and counterexamples *)

Lemma is_http_https (nl p : str) : is_http (mkParseResult "https" nl p [] [] []).
Proof. unfold is_http. cbn [scheme]. rewrite !elem_of_cons. right. by left. Qed.

(** The data URI of the scheme filter. *)
Lemma non_http_scheme_returns_none_data_uri :
  urlparse no_check "data:image/png;base64,AAAA"
    = Ok (mkParseResult "data" [] "image/png;base64,AAAA" [] [] [])
  /\ local_path_for_url example_dir no_check "data:image/png;base64,AAAA" ∅
     = (Ok None, ∅).
Proof.
  split; [vm_compute; reflexivity|].
  apply (non_http_scheme_returns_none example_dir no_check _
           (mkParseResult "data" [] "image/png;base64,AAAA" [] [] []));
    [vm_compute; reflexivity|discriminate|discriminate].
Defined.

(** The two directory URLs of the index rule. *)
Lemma directory_url_maps_to_index_examples :
  (exists abs_path rel_posix fs',
     local_path_for_url example_dir no_check "https://primary.example/" ∅
       = (Ok (Some (abs_path, rel_posix)), fs')
     /\ endswith "/index" rel_posix = true)
  /\ (exists abs_path rel_posix fs',
        local_path_for_url example_dir no_check "https://primary.example/about/" ∅
          = (Ok (Some (abs_path, rel_posix)), fs')
        /\ endswith "/index" rel_posix = true).
Proof.
  split.
  - assert (E : exists v, (local_path_for_url example_dir no_check
                             "https://primary.example/" ∅).1 = Ok v)
      by (eexists; vm_compute; reflexivity).
    destruct E as [v E].
    destruct (local_path_for_url example_dir no_check "https://primary.example/" ∅)
      as [r fs1] eqn:H.
    cbn [fst] in E. subst r.
    destruct (directory_url_maps_to_index example_dir no_check
                "https://primary.example/"
                (mkParseResult "https" "primary.example" "/" [] [] []) ∅)
      with (v := v) (fs' := fs1) as (a & r & -> & Hend & _);
      [vm_compute; reflexivity|apply is_http_https|right; vm_compute; reflexivity|exact H|].
    exists a, r, fs1. split; [reflexivity|exact Hend].
  - assert (E : exists v, (local_path_for_url example_dir no_check
                             "https://primary.example/about/" ∅).1 = Ok v)
      by (eexists; vm_compute; reflexivity).
    destruct E as [v E].
    destruct (local_path_for_url example_dir no_check "https://primary.example/about/" ∅)
      as [r fs1] eqn:H.
    cbn [fst] in E. subst r.
    destruct (directory_url_maps_to_index example_dir no_check
                "https://primary.example/about/"
                (mkParseResult "https" "primary.example" "/about/" [] [] []) ∅)
      with (v := v) (fs' := fs1) as (a & r & -> & Hend & _);
      [vm_compute; reflexivity|apply is_http_https|right; vm_compute; reflexivity|exact H|].
    exists a, r, fs1. split; [reflexivity|exact Hend].
Defined.

(** The two URLs of the host partition. *)
Lemma host_partition_examples :
  (exists abs_path fs',
     local_path_for_url example_dir no_check "https://cdn.other.example/a.js" ∅
       = (Ok (Some (abs_path, ("assets/external/cdn.other.example/a.js" : str))), fs'))
  /\ (exists abs_path fs',
        local_path_for_url example_dir no_check "https://kalashnikovgroup.ru/a.js" ∅
          = (Ok (Some (abs_path, ("assets/a.js" : str))), fs')).
Proof.
  split.
  - assert (E : exists v, (local_path_for_url example_dir no_check
                             "https://cdn.other.example/a.js" ∅).1 = Ok v)
      by (eexists; vm_compute; reflexivity).
    destruct E as [v E].
    destruct (local_path_for_url example_dir no_check "https://cdn.other.example/a.js" ∅)
      as [r fs1] eqn:H.
    cbn [fst] in E. subst r.
    destruct (host_partition example_dir no_check "https://cdn.other.example/a.js"
                (mkParseResult "https" "cdn.other.example" "/a.js" [] [] []) ∅)
      with (v := v) (fs' := fs1) as (a & r & -> & Hext & _);
      [vm_compute; reflexivity|apply is_http_https|exact H|].
    exists a, fs1. do 3 f_equal. rewrite Hext.
    + vm_compute; reflexivity.
    + discriminate.
    + apply (bool_decide_unpack _). vm_compute. exact I.
    + discriminate.
  - assert (E : exists v, (local_path_for_url example_dir no_check
                             "https://kalashnikovgroup.ru/a.js" ∅).1 = Ok v)
      by (eexists; vm_compute; reflexivity).
    destruct E as [v E].
    destruct (local_path_for_url example_dir no_check "https://kalashnikovgroup.ru/a.js" ∅)
      as [r fs1] eqn:H.
    cbn [fst] in E. subst r.
    destruct (host_partition example_dir no_check "https://kalashnikovgroup.ru/a.js"
                (mkParseResult "https" "kalashnikovgroup.ru" "/a.js" [] [] []) ∅)
      with (v := v) (fs' := fs1) as (a & r & -> & _ & Hown);
      [vm_compute; reflexivity|apply is_http_https|exact H|].
    exists a, fs1. do 3 f_equal. rewrite Hown.
    + vm_compute; reflexivity.
    + right. apply (bool_decide_unpack _). vm_compute. exact I.
Defined.

(** C5 fails as it stands: a path of the site's own host may begin with
    [external]; the part of a host that is a single dot is dropped; and
    an empty host, which is not in the allow-list, gets no prefix. *)
Lemma host_partition_fails :
  (local_path_for_url example_dir no_check "https://kalashnikovgroup.ru/external/a.js" ∅).1
    = Ok (Some ([("out" : str); ("assets" : str); ("external" : str); ("a.js" : str)],
                ("assets/external/a.js" : str)))
  /\ ("kalashnikovgroup.ru" : str) ∈ ALLOWED_HOSTS
  /\ contains "external/" ("assets/external/a.js" : str) = true
  /\ (local_path_for_url example_dir no_check "http://./a.js" ∅).1
    = Ok (Some ([("out" : str); ("assets" : str); ("external" : str); ("a.js" : str)],
                ("assets/external/a.js" : str)))
  /\ (("." : str) ∉ ALLOWED_HOSTS)
  /\ contains "external/./" ("assets/external/a.js" : str) = false
  /\ (local_path_for_url example_dir no_check "http:///a.js" ∅).1
    = Ok (Some ([("out" : str); ("assets" : str); ("a.js" : str)], ("assets/a.js" : str)))
  /\ (([] : str) ∉ ALLOWED_HOSTS).
Proof.
  repeat split; try (vm_compute; reflexivity);
    apply (bool_decide_unpack _); vm_compute; exact I.
Qed.

(** A URL with characters outside the safe set and a doubled separator. *)
Lemma returned_path_is_sanitized_example :
  exists abs_path fs',
    local_path_for_url example_dir no_check "https://kalashnikovgroup.ru/a b%20c//d.js" ∅
      = (Ok (Some (abs_path, ("assets/a_b_20c/d.js" : str))), fs')
    /\ Forall (fun c => safe_char c = true) ("assets/a_b_20c/d.js" : str)
    /\ contains "//" ("assets/a_b_20c/d.js" : str) = false.
Proof.
  assert (E : (local_path_for_url example_dir no_check
                 "https://kalashnikovgroup.ru/a b%20c//d.js" ∅).1
              = Ok (Some ([("out" : str); ("assets" : str); ("a_b_20c" : str); ("d.js" : str)],
                          ("assets/a_b_20c/d.js" : str))))
    by (vm_compute; reflexivity).
  destruct (local_path_for_url example_dir no_check
              "https://kalashnikovgroup.ru/a b%20c//d.js" ∅) as [r fs1] eqn:H.
  cbn [fst] in E. subst r.
  destruct (returned_path_is_sanitized example_dir no_check
              "https://kalashnikovgroup.ru/a b%20c//d.js"
              (mkParseResult "https" "kalashnikovgroup.ru" "/a b%20c//d.js" [] [] []) ∅)
    as [Hval _]; [vm_compute; reflexivity|].
  destruct (Hval _ _ fs1 H) as (_ & Hsafe & Hrun).
  eexists _, fs1. split; [reflexivity|]. split; [exact Hsafe|exact Hrun].
Defined.

(** C6 fails as it stands: a printable input with an unmatched bracket in
    its netloc makes [urlparse], and so the mapper, raise. *)
Lemma printable_input_raises :
  printable "http://[" = true
  /\ local_path_for_url example_dir no_check "http://[" ∅ = (Raise ValueError, ∅).
Proof. split; vm_compute; reflexivity. Qed.

(** The second call starts from the disk that the first one left. *)
Lemma local_path_is_deterministic_example :
  exists v fs1,
    local_path_for_url example_dir no_check "https://primary.example/about/" ∅ = (Ok v, fs1)
    /\ local_path_for_url example_dir no_check "https://primary.example/about/" fs1
       = (Ok v, fs1).
Proof.
  assert (E : exists v, (local_path_for_url example_dir no_check
                           "https://primary.example/about/" ∅).1 = Ok v)
    by (eexists; vm_compute; reflexivity).
  destruct E as [v E].
  destruct (local_path_for_url example_dir no_check "https://primary.example/about/" ∅)
    as [r fs1] eqn:H.
  cbn [fst] in E. subst r. exists v, fs1. split; [reflexivity|].
  exact (proj2 (local_path_is_deterministic example_dir no_check _ ∅ ∅ fs1 fs1 v v H H)).
Defined.

(** The root URL of the site in the map: every separator of the markup
    becomes [assets/index]. *)
Lemma root_url_replaces_every_slash_example :
  urlparse no_check START_URL
    = Ok (mkParseResult "https" "kalashnikovgroup.ru" "/" [] [] [])
  /\ rewrite_pair no_check "<a href=/x/y>" (START_URL, ("assets/index" : str))
     = ("<a href=assets/indexxassets/indexy>" : str).
Proof.
  split; [vm_compute; reflexivity|].
  rewrite (root_url_replaces_every_slash no_check START_URL "assets/index"
             "<a href=/x/y>" (mkParseResult "https" "kalashnikovgroup.ru" "/" [] [] []));
    vm_compute; reflexivity.
Defined.





Lemma colliding_urls_last_body_wins_example :
  let r1 := script_response "https://kalashnikovgroup.ru/app.js?v=1" [Byte.x31] in
  let r2 := script_response "https://kalashnikovgroup.ru/app.js?v=2" [Byte.x32] in
  let st2 := on_response example_dir no_check r2
               (on_response example_dir no_check r1 empty_store) in
  exists v body2 q,
    resp_body r2 = Ok (Some body2)
    /\ entries st2 = [(resp_url r1, v); (resp_url r2, v)]
    /\ resolve (disk st2) []
         (ASSETS_DIR example_dir
          ++ rel_path_of (mkParseResult "https" "kalashnikovgroup.ru" "/app.js" [] "v=1" []))
       = Ok (q, Some (File body2)).
Proof.
  intros r1 r2 st2.
  apply (colliding_urls_last_body_wins example_dir no_check r1 r2 empty_store
           (mkParseResult "https" "kalashnikovgroup.ru" "/app.js" [] "v=1" [])
           (mkParseResult "https" "kalashnikovgroup.ru" "/app.js" [] "v=2" []));
    try (vm_compute; reflexivity); try discriminate;
    apply (bool_decide_unpack _); vm_compute; exact I.
Defined.

Lemma blocked_directory_drops_response_example :
  let response := script_response "https://kalashnikovgroup.ru/lib/app.js" [Byte.x2f] in
  local_path_for_url example_dir no_check (resp_url response) (disk lib_store)
    = (Raise FileExistsError, disk lib_store)
  /\ on_response example_dir no_check response lib_store = lib_store.
Proof.
  intros response.
  apply (blocked_directory_drops_response example_dir no_check response lib_store
           (mkParseResult "https" "kalashnikovgroup.ru" "/lib/app.js" [] [] []));
    try (vm_compute; reflexivity).
  apply is_http_https.
Defined.

Lemma blocked_directory_aborts_scan_example :
  scan_assets example_dir no_check join_absolute
    [ (("https://kalashnikovgroup.ru/lib/app.js" : str), Some [Byte.x2f]);
      (("https://kalashnikovgroup.ru/logo.png" : str), Some [Byte.x89]) ]
    lib_store
  = (Raise FileExistsError, lib_store).
Proof.
  apply (blocked_directory_aborts_scan example_dir no_check join_absolute
           "https://kalashnikovgroup.ru/lib/app.js" "https://kalashnikovgroup.ru/lib/app.js"
           (Some [Byte.x2f]) _ lib_store
           (mkParseResult "https" "kalashnikovgroup.ru" "/lib/app.js" [] [] []));
    try (vm_compute; reflexivity); try discriminate; try apply is_http_https.
  apply (bool_decide_unpack _). vm_compute. exact I.
Defined.

Lemma local_path_ignores_query_example :
  local_path_for_url example_dir no_check "https://kalashnikovgroup.ru/app.js?v=1" ∅
  = local_path_for_url example_dir no_check "http://kalashnikovgroup.ru/app.js;p?v=2#top" ∅.
Proof.
  apply (local_path_ignores_query example_dir no_check _ _
           (mkParseResult "https" "kalashnikovgroup.ru" "/app.js" [] "v=1" [])
           (mkParseResult "http" "kalashnikovgroup.ru" "/app.js" "p" "v=2" "top"));
    try (vm_compute; reflexivity);
    unfold is_http; cbn [scheme]; rewrite !elem_of_cons; auto.
Defined.

Lemma returned_path_can_be_written_example :
  exists fs1 fs2 q,
    local_path_for_url example_dir no_check "https://kalashnikovgroup.ru/app.js" ∅
      = (Ok (Some ([("out" : str); ("assets" : str); ("app.js" : str)],
                   ("assets/app.js" : str))), fs1)
    /\ write_bytes [("out" : str); ("assets" : str); ("app.js" : str)] [Byte.x2f] fs1
       = (Ok tt, fs2)
    /\ resolve fs2 [] [("out" : str); ("assets" : str); ("app.js" : str)]
       = Ok (q, Some (File [Byte.x2f])).
Proof.
  assert (E : (local_path_for_url example_dir no_check
                 "https://kalashnikovgroup.ru/app.js" ∅).1
              = Ok (Some ([("out" : str); ("assets" : str); ("app.js" : str)],
                          ("assets/app.js" : str))))
    by (vm_compute; reflexivity).
  assert (W : (write_bytes [("out" : str); ("assets" : str); ("app.js" : str)] [Byte.x2f]
                 (local_path_for_url example_dir no_check
                    "https://kalashnikovgroup.ru/app.js" ∅).2).1 = Ok tt)
    by (vm_compute; reflexivity).
  destruct (local_path_for_url example_dir no_check "https://kalashnikovgroup.ru/app.js" ∅)
    as [r fs1] eqn:H.
  cbn [fst] in E. cbn [snd] in W. subst r.
  destruct (write_bytes [("out" : str); ("assets" : str); ("app.js" : str)] [Byte.x2f] fs1)
    as [w fs2] eqn:Hw.
  cbn [fst] in W. subst w.
  destruct (returned_path_can_be_written example_dir no_check _ _ _ _ _ [Byte.x2f] H)
    as (_ & _ & _ & Hok).
  destruct (Hok fs2 Hw) as [q Hq]. exists fs1, fs2, q.
  split; [reflexivity|]. split; [exact Hw|exact Hq].
Defined.

Lemma new_files_are_under_assets_example :
  let response := script_response "https://kalashnikovgroup.ru/app.js" [Byte.x2f] in
  disk empty_store !! [("out" : str); ("assets" : str); ("app.js" : str)] = Some (File [Byte.x2f])
  \/ ([("out" : str); ("assets" : str); ("app.js" : str)]
      = ASSETS_DIR example_dir
        ++ rel_path_of (mkParseResult "https" "kalashnikovgroup.ru" "/app.js" [] [] [])
      /\ resp_body response = Ok (Some [Byte.x2f])).
Proof.
  intros response.
  apply (new_files_are_under_assets example_dir no_check response empty_store
           (mkParseResult "https" "kalashnikovgroup.ru" "/app.js" [] [] []));
    try (vm_compute; reflexivity);
    apply (bool_decide_unpack _); vm_compute; exact I.
Defined.

Lemma full_url_is_rewritten_twice_example :
  rewrite_pair no_check
    (("<script src=" : str) ++ ("https://kalashnikovgroup.ru/app.js" : str) ++ ("></script>" : str))
    (("https://kalashnikovgroup.ru/app.js" : str), ("assets/app.js" : str))
  = ("<script src=" : str) ++ ("assets" : str) ++ ("assets/app.js" : str)
    ++ rewrite_pair no_check "></script>"
         (("https://kalashnikovgroup.ru/app.js" : str), ("assets/app.js" : str)).
Proof.
  apply (full_url_is_rewritten_twice no_check "https://kalashnikovgroup.ru/app.js"
           "assets/app.js" "assets" "app.js" "<script src=" "></script>"
           (mkParseResult "https" "kalashnikovgroup.ru" "/app.js" [] [] []));
    try (vm_compute; reflexivity);
    apply (bool_decide_unpack _); vm_compute; exact I.
Defined.

Lemma interceptor_before_every_closing_head_example :
  inject_rewriter
    (join "</head>" [("<head>" : str); ("<body><!-- " : str); (" --></body>" : str)])
  = join (rewriter_js ++ ("</head>" : str))
      [("<head>" : str); ("<body><!-- " : str); (" --></body>" : str)].
Proof.
  apply (interceptor_before_every_closing_head "<head>"
           [("<body><!-- " : str); (" --></body>" : str)]).
  repeat constructor.
Defined.

Lemma sanitized_filename_is_safe_example :
  exists name,
    sanitize_filename no_check "https://kalashnikovgroup.ru/css/main v2.css?x=1" = Ok name
    /\ name <> []
    /\ Forall (fun c => name_unsafe c = false) name.
Proof.
  apply (sanitized_filename_is_safe no_check _
           (mkParseResult "https" "kalashnikovgroup.ru" "/css/main v2.css" [] "x=1" [])).
  vm_compute. reflexivity.
Defined.

Lemma directory_url_is_named_index_example :
  sanitize_filename no_check "https://kalashnikovgroup.ru/" = Ok ("index" : str)
  /\ sanitize_filename no_check "https://kalashnikovgroup.ru/theme.css/" = Ok ("index.css" : str).
Proof.
  split.
  - rewrite (directory_url_is_named_index no_check _
               (mkParseResult "https" "kalashnikovgroup.ru" "/" [] [] []));
      [vm_compute; reflexivity|vm_compute; reflexivity|right; vm_compute; reflexivity].
  - rewrite (directory_url_is_named_index no_check _
               (mkParseResult "https" "kalashnikovgroup.ru" "/theme.css/" [] [] []));
      [vm_compute; reflexivity|vm_compute; reflexivity|right; vm_compute; reflexivity].
Defined.

Lemma mapUrl_agrees_with_local_path_example :
  mapUrl "https://kalashnikovgroup.ru/js/app.js"
    (mkAnchor "https:" "kalashnikovgroup.ru" "/js/app.js")
  = ("/assets/js/app.js" : str).
Proof.
  assert (E : (local_path_for_url example_dir no_check
                 "https://kalashnikovgroup.ru/js/app.js" ∅).1
              = Ok (Some ([("out" : str); ("assets" : str); ("js" : str); ("app.js" : str)],
                          ("assets/js/app.js" : str))))
    by (vm_compute; reflexivity).
  destruct (local_path_for_url example_dir no_check "https://kalashnikovgroup.ru/js/app.js" ∅)
    as [r fs1] eqn:H.
  cbn [fst] in E. subst r.
  apply (mapUrl_agrees_with_local_path example_dir no_check
           "https://kalashnikovgroup.ru/js/app.js" _ _
           (mkParseResult "https" "kalashnikovgroup.ru" "/js/app.js" [] [] [])
           ∅ fs1 [("out" : str); ("assets" : str); ("js" : str); ("app.js" : str)]
           "assets/js/app.js");
    [vm_compute; reflexivity | exact H | by right | reflexivity | reflexivity
    | vm_compute; reflexivity | vm_compute; reflexivity | vm_compute; reflexivity | | ].
  - left. apply (bool_decide_unpack _). vm_compute. exact I.
  - apply Forall_forall. intros seg Hseg. revert seg Hseg. apply Forall_forall.
    apply (bool_decide_unpack _). vm_compute. exact I.
Defined.

Lemma mapUrl_keeps_subdomains_internal_example :
  mapUrl "https://cdn.kalashnikovgroup.ru/js/app.js"
    (mkAnchor "https:" "cdn.kalashnikovgroup.ru" "/js/app.js")
  = ("/assets/js/app.js" : str)
  /\ (local_path_for_url example_dir no_check "https://cdn.kalashnikovgroup.ru/js/app.js" ∅).1
     = Ok (Some ([("out" : str); ("assets" : str); ("external" : str);
                  ("cdn.kalashnikovgroup.ru" : str); ("js" : str); ("app.js" : str)],
                 ("assets/external/cdn.kalashnikovgroup.ru/js/app.js" : str))).
Proof.
  assert (E : (local_path_for_url example_dir no_check
                 "https://cdn.kalashnikovgroup.ru/js/app.js" ∅).1
              = Ok (Some ([("out" : str); ("assets" : str); ("external" : str);
                           ("cdn.kalashnikovgroup.ru" : str); ("js" : str); ("app.js" : str)],
                          ("assets/external/cdn.kalashnikovgroup.ru/js/app.js" : str))))
    by (vm_compute; reflexivity).
  split; [|exact E].
  destruct (local_path_for_url example_dir no_check
              "https://cdn.kalashnikovgroup.ru/js/app.js" ∅) as [r fs1] eqn:H.
  cbn [fst] in E. subst r.
  refine (proj1 (mapUrl_keeps_subdomains_internal example_dir no_check
           "https://cdn.kalashnikovgroup.ru/js/app.js" _ "cdn" _
           (mkParseResult "https" "cdn.kalashnikovgroup.ru" "/js/app.js" [] [] [])
           ∅ fs1 _ _ _ H _ _ _ _ _ _ _ _ _ _ _)).
  - vm_compute; reflexivity.
  - by right.
  - reflexivity.
  - reflexivity.
  - vm_compute; reflexivity.
  - vm_compute; reflexivity.
  - vm_compute; reflexivity.
  - reflexivity.
  - discriminate.
  - apply (bool_decide_unpack _). vm_compute. exact I.
  - apply (bool_decide_unpack _). vm_compute. exact I.
  - apply (bool_decide_unpack _). vm_compute. exact I.
Defined.

(** A URL with a space in its path: the browser reports the path with
    the space escaped, and the script and the mapper give two names. *)
Lemma mapUrl_escaped_path_differs :
  mapUrl "https://kalashnikovgroup.ru/img/a b.png"
    (mkAnchor "https:" "kalashnikovgroup.ru" "/img/a%20b.png")
  = ("/assets/img/a_20b.png" : str)
  /\ (local_path_for_url example_dir no_check "https://kalashnikovgroup.ru/img/a b.png" ∅).1
     = Ok (Some ([("out" : str); ("assets" : str); ("img" : str); ("a_b.png" : str)],
                 ("assets/img/a_b.png" : str))).
Proof. split; vm_compute; reflexivity. Qed.

(** The second half of a handler on a disk with the directory of its
    local path: the URL is set and the file holds the body. *)
Lemma response_changes_one_file_example :
  let response := script_response app_js [Byte.x2f] in
  let st := mkStore [] (<[[("out" : str); ("assets" : str)] := Dir]> (<[[("out" : str)] := Dir]> ∅)) [] in
  let st' := on_response_finish response
               ([("out" : str); ("assets" : str); ("app.js" : str)], ("assets/app.js" : str)) st in
  entries st' = [(app_js, ("assets/app.js" : str))]
  /\ exists q,
       resolve (disk st') [] [("out" : str); ("assets" : str); ("app.js" : str)]
       = Ok (q, Some (File [Byte.x2f])).
Proof.
  intros response st st'.
  assert (E : entries st' = [(app_js, ("assets/app.js" : str))])
    by (vm_compute; reflexivity).
  split; [exact E|].
  destruct (response_changes_one_file example_dir no_check) as [_ Hfin].
  destruct (Hfin response [("out" : str); ("assets" : str); ("app.js" : str)]
              ("assets/app.js" : str) st) as [_ [He|(body & q & Hb & _ & Hq)]].
  - exfalso. fold st' in He. rewrite E in He. discriminate He.
  - injection Hb as <-. exists q. exact Hq.
Defined.

Lemma scan_reuses_existing_file_example :
  scan_asset example_dir no_check join_absolute
    (("http://kalashnikovgroup.ru/lib" : str), Some [Byte.x31]) lib_store
  = (Ok tt,
     mkStore [(("https://kalashnikovgroup.ru/lib" : str), ("assets/lib" : str));
              (("http://kalashnikovgroup.ru/lib" : str), ("assets/lib" : str))]
       (disk lib_store) (writes lib_store)).
Proof.
  rewrite (scan_reuses_existing_file example_dir no_check join_absolute
             "http://kalashnikovgroup.ru/lib" "http://kalashnikovgroup.ru/lib"
             (Some [Byte.x31]) lib_store
             (mkParseResult "http" "kalashnikovgroup.ru" "/lib" [] [] [])).
  - vm_compute; reflexivity.
  - discriminate.
  - vm_compute; reflexivity.
  - reflexivity.
  - apply (bool_decide_unpack _). vm_compute. exact I.
  - vm_compute; reflexivity.
  - unfold is_http. cbn [scheme]. rewrite !elem_of_cons. auto.
  - vm_compute; reflexivity.
Defined.

Lemma relative_text_names_the_file_example :
  exists fs1,
    local_path_for_url example_dir no_check "https://cdn.example.org/a b/c.js" ∅
      = (Ok (Some ([("out" : str); ("assets" : str); ("external" : str);
                    ("cdn.example.org" : str); ("a_b" : str); ("c.js" : str)],
                   ("assets/external/cdn.example.org/a_b/c.js" : str))), fs1)
    /\ [("out" : str); ("assets" : str); ("external" : str);
        ("cdn.example.org" : str); ("a_b" : str); ("c.js" : str)]
       = example_dir ++ split "/" ("assets/external/cdn.example.org/a_b/c.js" : str).
Proof.
  assert (E : (local_path_for_url example_dir no_check
                 "https://cdn.example.org/a b/c.js" ∅).1
              = Ok (Some ([("out" : str); ("assets" : str); ("external" : str);
                           ("cdn.example.org" : str); ("a_b" : str); ("c.js" : str)],
                          ("assets/external/cdn.example.org/a_b/c.js" : str))))
    by (vm_compute; reflexivity).
  destruct (local_path_for_url example_dir no_check "https://cdn.example.org/a b/c.js" ∅)
    as [r fs1] eqn:H.
  cbn [fst] in E. subst r. exists fs1. split; [reflexivity|].
  exact (relative_text_names_the_file example_dir no_check _ _ _ _ _ H).
Defined.
